(** * links-italia: the sitemap crawler and the sitemap regenerator

    A shallow embedding of [sitemap_extractor.py] and [update_sitemap.py].

    Conventions of the embedding.
    - A Python [str] is a [string] whose characters are read as code points
      below 256; [bytes] are a [string] read as octets.
    - The two mutable sets handed down through the recursion of
      [get_sitemap_urls] are one record of [gset string], threaded through
      every call, so every recursive call sees and updates the same sets.
    - What a run does to the outside world is kept in a trace, newest event
      first: the lines it prints and the requests it sends.
    - An exception is a value; a function that may raise returns a sum, and
      the two [try] blocks of the source are written out with their handlers.
    - The network and the XML parser are parameters of the crawler.
    - The recursion of [get_sitemap_urls] follows the remote documents, so it
      carries a bound on its nesting depth; [None] means the bound was hit. *)

From Stdlib Require Import Ascii NArith Decimal DecimalString DecimalNat.
From stdpp Require Import gmap strings list sorting.

(** ** The methods of [str] and [bytes] that the scripts call *)

Module PyStr.

(** [str.isspace] on one code point below 256. *)
Definition is_space (c : ascii) : bool :=
  let n := N_of_ascii c in
  ((9 <=? n) && (n <=? 13) || (28 <=? n) && (n <=? 32)
   || (n =? 133) || (n =? 160))%N.

(** The octets that [bytes.strip] removes. *)
Definition is_bspace (c : ascii) : bool := Ascii.is_space c.

(** The three strips, over the test [sp] that says which characters go. *)
Fixpoint lstrip_with (sp : ascii → bool) (s : string) : string :=
  match s with
  | String c s' => if sp c then lstrip_with sp s' else s
  | "" => ""
  end.

Fixpoint rstrip_with (sp : ascii → bool) (s : string) : string :=
  match s with
  | String c s' =>
      match rstrip_with sp s' with
      | "" => if sp c then "" else String c ""
      | r => String c r
      end
  | "" => ""
  end.

Definition strip_with (sp : ascii → bool) (s : string) : string :=
  rstrip_with sp (lstrip_with sp s).

(** Every character of [s] passes the test [sp]. *)
Fixpoint all_with (sp : ascii → bool) (s : string) : bool :=
  match s with
  | String c s' => sp c && all_with sp s'
  | "" => true
  end.

(** [s.strip()] for a [str] and for [bytes]. *)
Definition strip : string → string := strip_with is_space.
Definition bstrip : string → string := strip_with is_bspace.

(** [s.startswith(p)]. *)
Fixpoint startswith (s p : string) : bool :=
  match p, s with
  | "", _ => true
  | String a p', String b s' => bool_decide (a = b) && startswith s' p'
  | String _ _, "" => false
  end.

(** [s.endswith(suffix)]: some tail of [s] is [suffix]. *)
Fixpoint endswith (s suffix : string) : bool :=
  bool_decide (s = suffix) ||
  match s with
  | String _ s' => endswith s' suffix
  | "" => false
  end.

(** [sep in s]: some tail of [s] starts with [sep]. *)
Fixpoint contains (s sep : string) : bool :=
  startswith s sep ||
  match s with
  | String _ s' => contains s' sep
  | "" => false
  end.

(** [s[n:]]. *)
Fixpoint drop_chars (n : nat) (s : string) : string :=
  match n, s with
  | S n', String _ s' => drop_chars n' s'
  | _, _ => s
  end.

(** What follows the first [sep] in [s], if there is one. *)
Fixpoint after_first (sep s : string) : option string :=
  if startswith s sep then Some (drop_chars (String.length sep) s)
  else
    match s with
    | String _ s' => after_first sep s'
    | "" => None
    end.

(** [s.split(sep)] for a non-empty [sep]: the separators are found from the
    left and do not overlap. [skip] counts the characters of a separator
    still to pass over, [cur] is the current piece, reversed. *)
Fixpoint split_go (sep s : string) (skip : nat) (cur : string) : list string :=
  match s with
  | "" => [String.rev cur]
  | String c s' =>
      match skip with
      | S k => split_go sep s' k cur
      | 0 =>
          if startswith s sep
          then String.rev cur :: split_go sep s' (String.length sep - 1) ""
          else split_go sep s' 0 (String c cur)
      end
  end.
Definition split (s sep : string) : list string := split_go sep s 0 "".

(** [s.replace(old, new)] for a non-empty [old]. *)
Fixpoint replace_go (old new s : string) (skip : nat) : string :=
  match s with
  | "" => ""
  | String c s' =>
      match skip with
      | S k => replace_go old new s' k
      | 0 =>
          if startswith s old
          then new +:+ replace_go old new s' (String.length old - 1)
          else String c (replace_go old new s' 0)
      end
  end.
Definition replace (s old new : string) : string := replace_go old new s 0.

(** [sep.join(pieces)]. *)
Fixpoint join (sep : string) (pieces : list string) : string :=
  match pieces with
  | [] => ""
  | [p] => p
  | p :: rest => p +:+ sep +:+ join sep rest
  end.

(** [l[-1]] on the result of a split, which is never empty. *)
Definition last_piece (l : list string) : string := List.last l "".

(** [f"{n:03d}"]: decimal, padded with zeros to three digits at least. *)
Definition format_03d (n : nat) : string :=
  let d := NilEmpty.string_of_uint (Nat.to_uint n) in
  match String.length d with
  | 1 => "00" +:+ d
  | 2 => "0" +:+ d
  | _ => d
  end.

End PyStr.

(** ** The part of [xml.etree.ElementTree] that the crawler uses *)

Module ET.

(** An element: its tag (a namespaced tag is written [{uri}local], as the
    library does), its text ([None] when the element has no text node) and its
    children in document order. *)
#[warnings="-register-all"]
Inductive Element : Type :=
  Elem (tag : string) (text : option string) (children : list Element).

Definition tag (e : Element) : string := let 'Elem t _ _ := e in t.
Definition text (e : Element) : option string := let 'Elem _ t _ := e in t.
Definition children (e : Element) : list Element := let 'Elem _ _ c := e in c.

(** [e.iter()]: the element and everything beneath it, in document order. *)
Fixpoint iter (e : Element) : list Element :=
  e :: flat_map iter (children e).

(** The elements strictly beneath [e]: a [.//] path never selects [e]. *)
Definition descendants (e : Element) : list Element :=
  flat_map iter (children e).

(** [e.findall('.//' + t)] for a tag [t] that is already resolved. *)
Definition findall_descendants (t : string) (e : Element) : list Element :=
  filter (λ x, tag x = t) (descendants e).

(** A prefixed name [prefix:local] resolved against a namespace uri. *)
Definition qname (uri local : string) : string := "{" +:+ uri +:+ "}" +:+ local.

End ET.

(** ** sitemap_extractor.py *)

Module SitemapExtractor.
Import PyStr ET.

(** The exception classes that the handlers of [get_sitemap_urls] tell apart,
    each with the text that [str(e)] gives. *)
Inductive exn : Type :=
  | RequestException (msg : string)
  | ParseError (msg : string)
  | OtherException (msg : string).

Definition exn_str (e : exn) : string :=
  match e with
  | RequestException m | ParseError m | OtherException m => m
  end.

(** What the crawler reaches outside the process: [requests_get url] stands
    for [requests.get(url, timeout=10)] followed by [raise_for_status()] and
    yields [response.content] or the exception raised; [ET_fromstring] stands
    for [ET.fromstring]. *)
Record Remote : Type := {
  requests_get : string → exn + string;
  ET_fromstring : string → exn + Element
}.

(** An observable step of a run: a printed line, or a request sent for [url]
    together with the processed set as it stood when the request left. *)
Inductive event : Type :=
  | Print (line : string)
  | Get (url : string) (processed_then : gset string).

(** The two sets that every call shares, and the trace, newest event first. *)
Record state : Type := {
  all_urls : gset string;
  processed_sitemaps : gset string;
  trace : list event
}.

Definition print (line : string) (st : state) : state :=
  {| all_urls := all_urls st; processed_sitemaps := processed_sitemaps st;
     trace := Print line :: trace st |}.

(** [all_urls.add(url)]. *)
Definition add_url (url : string) (st : state) : state :=
  {| all_urls := {[url]} ∪ all_urls st;
     processed_sitemaps := processed_sitemaps st; trace := trace st |}.

(** [processed_sitemaps.add(url)]. *)
Definition add_processed (url : string) (st : state) : state :=
  {| all_urls := all_urls st;
     processed_sitemaps := {[url]} ∪ processed_sitemaps st;
     trace := trace st |}.

(** The request for [url] leaves. *)
Definition send (url : string) (st : state) : state :=
  {| all_urls := all_urls st; processed_sitemaps := processed_sitemaps st;
     trace := Get url (processed_sitemaps st) :: trace st |}.

(** How a call ends. *)
Inductive outcome : Type :=
  | Returned
  | Raised (e : exn).

Definition sitemap_ns : string := "http://www.sitemaps.org/schemas/sitemap/0.9".

(** Lines 32 to 34: the search under the namespace, then the bare one when
    the first found nothing. *)
Definition loc_elements (root : Element) : list Element :=
  let loc_elements := findall_descendants (qname sitemap_ns "loc") root in
  if bool_decide (loc_elements = [])
  then findall_descendants "loc" root
  else loc_elements.

(** Lines 36 to 42, the loop over the location elements; [call] is the
    recursive call. An exception that leaves [call] leaves the loop. *)
Fixpoint for_loc_elements (call : string → state → option (outcome * state))
    (locs : list Element) (st : state) : option (outcome * state) :=
  match locs with
  | [] => Some (Returned, st)
  | loc_element :: rest =>
      match text loc_element with
      | None => for_loc_elements call rest st
      | Some t =>
          if bool_decide (t = "") then for_loc_elements call rest st
          else
            let url := strip t in
            if endswith url ".xml" then
              match call url st with
              | Some (Returned, st') => for_loc_elements call rest st'
              | Some (Raised e, st') => Some (Raised e, st')
              | None => None
              end
            else for_loc_elements call rest (add_url url st)
      end
  end.

(** Lines 43 to 46: the handlers of the second [try]; every exception of the
    three classes is caught by one of them. *)
Definition handle (sitemap_url : string) (e : exn) (st : state) : state :=
  match e with
  | ParseError m =>
      print ("Error parsing XML from " +:+ sitemap_url +:+ ": " +:+ m) st
  | _ =>
      print ("An unexpected error occurred while processing " +:+ sitemap_url
             +:+ ": " +:+ exn_str e) st
  end.

(** [get_sitemap_urls]; [depth] bounds the nesting of the recursive calls. *)
Fixpoint get_sitemap_urls (w : Remote) (depth : nat) (sitemap_url : string)
    (st : state) : option (outcome * state) :=
  match depth with
  | 0 => None
  | S depth' =>
      if bool_decide (sitemap_url ∈ processed_sitemaps st) then
        Some (Returned,
              print ("Skipping already processed sitemap: " +:+ sitemap_url) st)
      else
        let st := print ("Processing sitemap: " +:+ sitemap_url) st in
        let st := add_processed sitemap_url st in
        let st := send sitemap_url st in
        match requests_get w sitemap_url with
        | inl (RequestException m) =>
            Some (Returned,
                  print ("Error fetching sitemap " +:+ sitemap_url +:+ ": "
                         +:+ m) st)
        | inl e => Some (Raised e, st)
        | inr body =>
            let content := bstrip body in
            if bool_decide (content = "") then
              Some (Returned, print ("Sitemap is empty: " +:+ sitemap_url) st)
            else
              match ET_fromstring w content with
              | inl e => Some (Returned, handle sitemap_url e st)
              | inr root =>
                  match for_loc_elements (get_sitemap_urls w depth')
                          (loc_elements root) st with
                  | Some (Returned, st') => Some (Returned, st')
                  | Some (Raised e, st') =>
                      Some (Returned, handle sitemap_url e st')
                  | None => None
                  end
              end
        end
  end.

(** *** What is observed of a run *)

(** The urls requested in a stretch of trace, and the processed sets seen at
    those requests. *)
Definition gets (evs : list event) : list string :=
  omap (λ ev, match ev with Get u _ => Some u | Print _ => None end) evs.

Definition snapshots (evs : list event) : list (gset string) :=
  omap (λ ev, match ev with Get _ P => Some P | Print _ => None end) evs.

(** The urls that the loop recurses into, and those it keeps, for a list of
    location elements. *)
Definition loc_url (e : Element) : option string :=
  match text e with
  | Some t => if bool_decide (t = "") then None else Some (strip t)
  | None => None
  end.

Definition sub_sitemaps (locs : list Element) : list string :=
  filter (λ u, endswith u ".xml" = true) (omap loc_url locs).

Definition leaf_urls (locs : list Element) : list string :=
  filter (λ u, endswith u ".xml" = false) (omap loc_url locs).

(** [U] holds every sitemap that a document of [U] refers to. *)
Definition closed (w : Remote) (U : gset string) : Prop :=
  ∀ u body root,
    u ∈ U →
    requests_get w u = inr body →
    ET_fromstring w (bstrip body) = inr root →
    ∀ v, v ∈ sub_sitemaps (loc_elements root) → v ∈ U.

(** A fault at the node [url], with the line that reports it: the request
    fails, the body is empty, or the parser rejects it. *)
Inductive fault_at (w : Remote) (url : string) : string → Prop :=
  | fault_transport m :
      requests_get w url = inl (RequestException m) →
      fault_at w url ("Error fetching sitemap " +:+ url +:+ ": " +:+ m)
  | fault_empty body :
      requests_get w url = inr body →
      bstrip body = "" →
      fault_at w url ("Sitemap is empty: " +:+ url)
  | fault_parse body m :
      requests_get w url = inr body →
      bstrip body ≠ "" →
      ET_fromstring w (bstrip body) = inl (ParseError m) →
      fault_at w url ("Error parsing XML from " +:+ url +:+ ": " +:+ m).

(** The state in which a call on [url] ends when it stops at a fault that it
    reports with [line]: the url is marked, the request was sent, and the
    two lines were printed. *)
Definition after_fault (url line : string) (st : state) : state :=
  print line
    (send url (add_processed url (print ("Processing sitemap: " +:+ url) st))).

(** [st'] is reached from [st] by a stretch [evs] of trace in which the sets
    only grow, every new leaf is trimmed and is no sitemap, every request is
    for a url that is new to [st], is sent once, and leaves after its url was
    put into the processed set. *)
Record extends (st st' : state) (evs : list event) : Prop := {
  ext_trace : trace st' = evs ++ trace st;
  ext_urls : all_urls st ⊆ all_urls st';
  ext_leaf : ∀ x, x ∈ all_urls st' → x ∉ all_urls st →
             strip x = x ∧ endswith x ".xml" = false;
  ext_processed : processed_sitemaps st ⊆ processed_sitemaps st';
  ext_gets_new : ∀ u, u ∈ gets evs →
                 (u ∉ processed_sitemaps st) ∧ (u ∈ processed_sitemaps st');
  ext_gets_once : NoDup (gets evs);
  ext_marked : Forall (λ ev, match ev with
                             | Get u P => u ∈ P ∧ processed_sitemaps st ⊆ P
                                          ∧ P ⊆ processed_sitemaps st'
                             | Print _ => True
                             end) evs;
  ext_mono : StronglySorted (λ P Q, Q ⊆ P) (snapshots evs)
}.

(** *** The batching of the [__main__] block *)

Definition nl : string := String "010"%char "".

Definition output_base_dir : string := "incontri-italia-link-showcase".
Definition lists_subdir : string := "lists".
Definition readme_filename : string := "README.md".

(** The two flavours of [os.path]: [posixpath], and [ntpath] on Windows. *)
Inductive platform : Type :=
  | Posix
  | Windows.

(** [os.sep]. *)
Definition os_sep (p : platform) : string :=
  match p with
  | Posix => "/"
  | Windows => "\"
  end.

(** [os.path.join] of two relative names, as the block joins them: the
    first is not empty and does not end with a separator, the second does
    not start with one, and neither names a drive. *)
Definition path_join_on (p : platform) (a b : string) : string :=
  a +:+ os_sep p +:+ b.

(** Line 59. *)
Definition full_lists_path_on (p : platform) : string :=
  path_join_on p output_base_dir lists_subdir.

(** The runs below are on POSIX. *)
Definition path_join (a b : string) : string := path_join_on Posix a b.

Definition full_lists_path : string := full_lists_path_on Posix.

(** Line 73: [sorted(list(extracted_urls))]; [str] is ordered by code points,
    a proper prefix first. *)
Definition sorted_urls (extracted_urls : gset string) : list string :=
  merge_sort String.le (elements extracted_urls).

(** [l[a:b]] for [0 <= a <= b]. *)
Definition slice (l : list string) (a b : nat) : list string :=
  take (b - a) (drop a l).

(** Line 75. *)
Definition num_batches (batch_size : nat) (urls : list string) : nat :=
  (length urls + batch_size - 1) / batch_size.

(** One turn of the loop of line 79: the number of the batch and its urls. *)
Record batch : Type := {
  batch_file_number : nat;
  current_batch_urls : list string
}.

Definition batch_at (batch_size : nat) (urls : list string) (i : nat) : batch :=
  let batch_start_index := i * batch_size in
  let batch_end_index := batch_start_index + batch_size in
  {| batch_file_number := i + 1;
     current_batch_urls := slice urls batch_start_index batch_end_index |}.

(** The batches in the order the loop makes them, [i] over
    [range(num_batches)]. *)
Definition batches (batch_size : nat) (urls : list string) : list batch :=
  batch_at batch_size urls <$> seq 0 (num_batches batch_size urls).

Definition batch_filename (b : batch) : string :=
  "list-" +:+ format_03d (batch_file_number b) +:+ ".md".

(** Line 87. *)
Definition batch_filepath_on (p : platform) (b : batch) : string :=
  path_join_on p (full_lists_path_on p) (batch_filename b).

Definition batch_filepath (b : batch) : string := batch_filepath_on Posix b.

(** Lines 90 to 92: the pair kept for the index; the literal of line 90 is
    one backslash. *)
Definition batch_details_on (p : platform) (b : batch) : string * string :=
  ("Link Batch " +:+ format_03d (batch_file_number b),
   replace (path_join_on p lists_subdir (batch_filename b)) "\" "/").

Definition batch_details (b : batch) : string * string :=
  batch_details_on Posix b.

(** Line 100. *)
Definition link_text (url : string) : string := last_piece (split url "//").

(** In the words of the specification: the label is the url with its scheme
    and leading slashes stripped, that is everything after the separator
    [//] of the scheme (the url itself when it has none). *)
Definition after_scheme (url : string) : string :=
  default url (after_first "//" url).

(** Line 101: the line written for one url. *)
Definition link_line (url : string) : string :=
  "- [" +:+ link_text url +:+ "](" +:+ url +:+ ")" +:+ nl.

(** Lines 95 to 101: everything written to the file of one batch. *)
Definition batch_file_text (b : batch) : string :=
  "# Incontri Italia - Link Batch " +:+ format_03d (batch_file_number b)
    +:+ nl +:+ nl
  +:+ "This file contains a curated selection of pages from [incontri-italia.it](https://www.incontri-italia.it/), part of a larger collection."
    +:+ nl +:+ nl
  +:+ "See the [main index](../../" +:+ readme_filename
    +:+ ") for a full list of batches." +:+ nl +:+ nl
  +:+ "## Links in this Batch" +:+ nl +:+ nl
  +:+ foldr (λ url rest, link_line url +:+ rest) "" (current_batch_urls b).

(** The batch files of a run, path and text, in the order they are written;
    none when nothing was extracted (line 70). *)
Definition batch_files (batch_size : nat) (extracted_urls : gset string)
    : list (string * string) :=
  if bool_decide (extracted_urls = ∅) then []
  else (λ b, (batch_filepath b, batch_file_text b))
         <$> batches batch_size (sorted_urls extracted_urls).

End SitemapExtractor.

(** ** update_sitemap.py *)

Module UpdateSitemap.
Import PyStr.

Definition nl : string := String "010"%char "".

Definition base_url : string := "https://whik59140.github.io/links-italia".
Definition lists_dir : string := "lists".

(** The exception classes that the handler of [write_sitemap] tells apart;
    [IOError] is [OSError] and its subclasses. *)
Inductive exn : Type :=
  | IOError (msg : string)
  | OtherError (msg : string).

Definition exn_str (e : exn) : string :=
  match e with IOError m | OtherError m => m end.

Definition is_io (e : exn) : bool :=
  match e with IOError _ => true | OtherError _ => false end.

(** What lines 18 and 19 find of the lists directory: the test of line 18
    fails; or it passes and [os.listdir] returns the names; or it passes and
    [os.listdir] raises, the directory being unreadable or gone since. *)
Inductive listed : Type :=
  | NotFound
  | Names (filenames : list string)
  | ListdirRaises (e : exn).

(** What [generate_sitemap_entries] reads from outside: the date of the day
    as [date.today().isoformat()] gives it; what lines 18 and 19 find of the
    lists directory; and for a path the date that lines 24 and 25 compute,
    or [None] when one of them raises. *)
Record Env : Type := {
  today : string;
  listing : listed;
  mtime_date : string → option string
}.

(** The text of one [<url>] element, as both templates lay it out. *)
Definition url_entry (loc lastmod changefreq priority : string) : string :=
  "  <url>" +:+ nl
  +:+ "    <loc>" +:+ loc +:+ "</loc>" +:+ nl
  +:+ "    <lastmod>" +:+ lastmod +:+ "</lastmod>" +:+ nl
  +:+ "    <changefreq>" +:+ changefreq +:+ "</changefreq>" +:+ nl
  +:+ "    <priority>" +:+ priority +:+ "</priority>" +:+ nl
  +:+ "  </url>".

(** Line 31; the literal of the source is two backslashes. *)
Definition loc_path (filename : string) : string :=
  replace (base_url +:+ "/" +:+ lists_dir +:+ "/" +:+ filename) "\\" "/".

(** Lines 22 to 28. *)
Definition lastmod_date (env : Env) (filename : string) : string :=
  match mtime_date env (lists_dir +:+ "/" +:+ filename) with
  | Some d => d
  | None => today env
  end.

(** Lines 19 to 38: the loop over the names, appending to the list. *)
Fixpoint for_filenames (env : Env) (filenames : list string)
    (sitemap_entries : list string) : list string :=
  match filenames with
  | [] => sitemap_entries
  | filename :: rest =>
      if endswith filename ".md" then
        for_filenames env rest
          (sitemap_entries ++
           [url_entry (loc_path filename) (lastmod_date env filename)
              "monthly" "0.8"])
      else for_filenames env rest sitemap_entries
  end.

(** [generate_sitemap_entries]: the list returned, or the exception that
    leaves the call, and the text printed. No handler surrounds line 19. *)
Definition generate_sitemap_entries (env : Env)
    : (exn + list string) * string :=
  let sitemap_entries :=
    [url_entry (base_url +:+ "/") (today env) "weekly" "1.0"] in
  match listing env with
  | Names filenames => (inr (for_filenames env filenames sitemap_entries), "")
  | ListdirRaises e => (inl e, "")
  | NotFound =>
      (inr sitemap_entries,
       "Warning: Directory '" +:+ lists_dir +:+ "' not found." +:+ nl)
  end.

Definition dq : string := String "034"%char "".

(** Lines 45 to 49; [linesep] is [os.linesep]. *)
Definition sitemap_content (linesep : string) (entries : list string) : string :=
  "<?xml version=" +:+ dq +:+ "1.0" +:+ dq +:+ " encoding=" +:+ dq +:+ "UTF-8"
    +:+ dq +:+ "?>" +:+ nl
  +:+ "<urlset xmlns=" +:+ dq +:+ "http://www.sitemaps.org/schemas/sitemap/0.9"
    +:+ dq +:+ ">" +:+ nl
  +:+ join linesep entries +:+ nl
  +:+ "</urlset>" +:+ nl.

(** What can go wrong while the file is written: nothing; [open] raises;
    or an exception is raised between [open] and the end of the [with] block,
    when [written] characters have reached the file. *)
Inductive write_fault : Type :=
  | NoFault
  | AtOpen (e : exn)
  | AtWrite (written : nat) (e : exn).

(** The faults of one call: of the writing, and of the reading back. *)
Record Faults : Type := {
  on_write : write_fault;
  on_read : option exn
}.

(** Every exception among the faults is an [IOError]. *)
Definition only_io (fl : Faults) : bool :=
  match on_write fl with
  | NoFault => true
  | AtOpen e | AtWrite _ e => is_io e
  end
  && match on_read fl with Some e => is_io e | None => true end.

(** The files of the working directory, by name, and what was printed. *)
Record state : Type := {
  files : gmap string string;
  stdout : string
}.

Definition print (line : string) (st : state) : state :=
  {| files := files st; stdout := stdout st +:+ line +:+ nl |}.

(** [print(line, end='')]. *)
Definition print_raw (text : string) (st : state) : state :=
  {| files := files st; stdout := stdout st +:+ text |}.

Definition set_file (name text : string) (st : state) : state :=
  {| files := <[name := text]> (files st); stdout := stdout st |}.

(** The first [n] characters of [s]. *)
Fixpoint prefix_of (n : nat) (s : string) : string :=
  match n, s with
  | S n', String c s' => String c (prefix_of n' s')
  | _, _ => ""
  end.

(** The lines that successive [readline] calls return on a file opened in
    text mode: each ends at a line feed, a carriage return or the pair, read
    as one line feed; [cur] is the current line, reversed. *)
Fixpoint readlines_go (s cur : string) : list string :=
  match s with
  | "" => if bool_decide (cur = "") then [] else [String.rev cur]
  | String c s' =>
      if bool_decide (c = "010"%char) then
        String.rev (String "010"%char cur) :: readlines_go s' ""
      else if bool_decide (c = "013"%char) then
        match s' with
        | String "010"%char s'' =>
            String.rev (String "010"%char cur) :: readlines_go s'' ""
        | _ => String.rev (String "010"%char cur) :: readlines_go s' ""
        end
      else readlines_go s' (String c cur)
  end.
Definition readlines (s : string) : list string := readlines_go s "".

(** How a call ends. *)
Inductive outcome : Type :=
  | Returned
  | Raised (e : exn).

(** Line 63: the handler of the [try]. *)
Definition handle (e : exn) (st : state) : outcome * state :=
  match e with
  | IOError m => (Returned, print ("Error writing sitemap.xml: " +:+ m) st)
  | OtherError _ => (Raised e, st)
  end.

(** Lines 55 to 62: the file is read back and its first lines printed. The
    literal of line 57 starts with a backslash and the letter n. *)
Definition verify (fl : Faults) (st : state) : outcome * state :=
  match files st !! "sitemap.xml" with
  | None => (Returned, st)
  | Some text =>
      match on_read fl with
      | Some e => handle e st
      | None =>
          let st := print "\nFirst 15 lines of generated sitemap.xml:" st in
          (Returned,
           foldl (λ st line, print_raw line st) st (take 15 (readlines text)))
      end
  end.

(** [write_sitemap]. Opening a file for writing empties it before anything
    is written. *)
Definition write_sitemap (linesep : string) (fl : Faults)
    (entries : list string) (st : state) : outcome * state :=
  let sitemap_content := sitemap_content linesep entries in
  match on_write fl with
  | AtOpen e => handle e st
  | AtWrite written e =>
      handle e (set_file "sitemap.xml" (prefix_of written sitemap_content) st)
  | NoFault =>
      let st := set_file "sitemap.xml" sitemap_content st in
      let st := print "sitemap.xml has been successfully updated." st in
      verify fl st
  end.

End UpdateSitemap.

(** ** A small site, to run the crawler on *)

Module Scenario.
Import ET SitemapExtractor.

Definition ns_tag (local : string) : string := qname sitemap_ns local.

Definition loc (t : string) : Element := Elem (ns_tag "loc") (Some t) [].
Definition entry (kind : string) (l : Element) : Element :=
  Elem (ns_tag kind) None [l].

(** The index refers twice to [a.xml], once with blanks around the url, and
    to sitemaps that cannot be read. *)
Definition index_doc : Element :=
  Elem (ns_tag "sitemapindex") None
    [entry "sitemap" (loc "https://s.it/a.xml");
     entry "sitemap" (loc "  https://s.it/a.xml ");
     entry "sitemap" (loc "https://s.it/b.xml");
     entry "sitemap" (loc "https://s.it/c.xml");
     entry "sitemap" (loc "https://s.it/d.xml")].

(** [a.xml] refers to itself and back to the index. *)
Definition a_doc : Element :=
  Elem (ns_tag "urlset") None
    [entry "url" (loc "https://s.it/p1");
     entry "url" (loc "https://s.it/a.xml");
     entry "url" (loc "https://s.it/sitemap.xml");
     entry "url" (loc " https://s.it/p2")].

(** [d.xml] carries no namespace. *)
Definition d_doc : Element :=
  Elem "urlset" None
    [Elem "url" None [Elem "loc" (Some "https://s.it/p3") []]].

(** A document with a bare location next to a namespaced one. *)
Definition mixed_doc : Element :=
  Elem (ns_tag "urlset") None
    [Elem "url" None [Elem "loc" (Some "https://s.it/bare") []];
     entry "url" (loc "https://s.it/spaced")].

(** [e.xml] has a location without text and one of blanks only. *)
Definition e_doc : Element :=
  Elem (ns_tag "urlset") None
    [entry "url" (Elem (ns_tag "loc") None []);
     entry "url" (loc "   ")].

(** The bodies stand for documents; [site_fromstring] gives the tree of each,
    and [b.xml] is cut short. [c.xml] is not served. *)
Definition site_get (url : string) : exn + string :=
  if bool_decide (url = "https://s.it/sitemap.xml") then inr " <sitemapindex/> "
  else if bool_decide (url = "https://s.it/a.xml") then inr "<urlset a/>"
  else if bool_decide (url = "https://s.it/b.xml") then inr "<urlset"
  else if bool_decide (url = "https://s.it/d.xml") then inr "<urlset d/>"
  else if bool_decide (url = "https://s.it/e.xml") then inr "<urlset e/>"
  else inl (RequestException "404 Client Error").

Definition site_fromstring (content : string) : exn + Element :=
  if bool_decide (content = "<sitemapindex/>") then inr index_doc
  else if bool_decide (content = "<urlset a/>") then inr a_doc
  else if bool_decide (content = "<urlset d/>") then inr d_doc
  else if bool_decide (content = "<urlset e/>") then inr e_doc
  else inl (ParseError "unclosed token: line 1, column 0").

Definition site : Remote :=
  {| requests_get := site_get; ET_fromstring := site_fromstring |}.

Definition site_root : string := "https://s.it/sitemap.xml".

Definition site_sitemaps : gset string :=
  {[site_root; "https://s.it/a.xml"; "https://s.it/b.xml";
    "https://s.it/c.xml"; "https://s.it/d.xml"]}.

(** Lines 63 and 64: both sets start empty. *)
Definition start : state :=
  {| all_urls := ∅; processed_sitemaps := ∅; trace := [] |}.

(** The run of line 67 on the site, and the state it ends in. *)
Definition site_run : option (outcome * state) :=
  get_sitemap_urls site 6 site_root start.

Definition site_final : state :=
  match site_run with Some (_, st) => st | None => start end.

(** Three urls, as a run could extract them. *)
Definition three_urls : gset string :=
  {["https://s.it/p2"; "https://s.it/p1"; "https://s.it/p3"]}.

End Scenario.

(** ** A small directory, to run the regenerator on *)

Module Directory.
Import UpdateSitemap.

(** The lists directory holds exactly two batch files; the date of the
    second cannot be read. *)
Definition two_lists : Env :=
  {| today := "2025-05-20";
     listing := Names ["list-002.md"; "list-001.md"];
     mtime_date := λ path,
       if bool_decide (path = "lists/list-001.md") then Some "2025-05-01"
       else None |}.

(** A file whose name holds two backslashes in a row. *)
Definition odd_name : Env :=
  {| today := "2025-05-20";
     listing := Names ["a\\b.md"];
     mtime_date := λ _, Some "2025-05-01" |}.

(** A file whose name holds one backslash. *)
Definition one_backslash : Env :=
  {| today := "2025-05-20";
     listing := Names ["a\b.md"];
     mtime_date := λ _, Some "2025-05-01" |}.

(** The lists directory is there and cannot be read. *)
Definition unreadable : Env :=
  {| today := "2025-05-20";
     listing :=
       ListdirRaises (IOError "[Errno 13] Permission denied: 'lists'");
     mtime_date := λ _, None |}.

(** The working directory holds an earlier sitemap. *)
Definition with_old_sitemap : state :=
  {| files := {["sitemap.xml" := "<old/>"]}; stdout := "" |}.

(** The disk fills up after five characters. *)
Definition disk_full : Faults :=
  {| on_write := AtWrite 5 (IOError "[Errno 28] No space left on device");
     on_read := None |}.

(** The working directory holds an index beside the earlier sitemap. *)
Definition with_readme : state :=
  {| files := {["README.md" := "index"; "sitemap.xml" := "<old/>"]};
     stdout := "" |}.

End Directory.

(** ** The size of a document *)

Module Tree.
Import ET.

(** The number of elements of the tree under [e], [e] included. *)
Fixpoint esize (e : Element) : nat :=
  S (foldr (λ c n, esize c + n) 0 (children e)).

End Tree.

(** ** What a crawl can reach *)

Module Exploration.
Import PyStr ET SitemapExtractor.

(** The location elements that a call on [u] loops over: those of the
    document at [u], and none when the request fails, the body is empty or
    the parser rejects it. *)
Definition doc_locs (w : Remote) (u : string) : list Element :=
  match requests_get w u with
  | inl _ => []
  | inr body =>
      if bool_decide (bstrip body = "") then []
      else
        match ET_fromstring w (bstrip body) with
        | inl _ => []
        | inr root => loc_elements root
        end
  end.

(** The sitemaps reached from [root] by following the locations that end
    with [.xml]. *)
Inductive reach (w : Remote) (root : string) : string → Prop :=
  | reach_root : reach w root root
  | reach_step v s :
      reach w root v → s ∈ sub_sitemaps (doc_locs w v) → reach w root s.

(** Every exception that a request raises is a [RequestException]. *)
Definition quiet (w : Remote) : Prop :=
  ∀ u ex, requests_get w u = inl ex → ∃ m, ex = RequestException m.

(** From [st] to [st'] the sitemaps [roots] were explored and the urls
    [leaves] kept: the sets only grow; every sitemap newly processed is
    reached from one of [roots], its leaves are kept and the sitemaps it
    refers to are processed; and every url newly kept is one of [leaves] or
    a leaf of a sitemap newly processed. *)
Record explored (w : Remote) (roots leaves : list string) (st st' : state)
    : Prop := {
  ex_urls : all_urls st ⊆ all_urls st';
  ex_processed : processed_sitemaps st ⊆ processed_sitemaps st';
  ex_roots : ∀ s, s ∈ roots → s ∈ processed_sitemaps st';
  ex_leaves : ∀ x, x ∈ leaves → x ∈ all_urls st';
  ex_reached : ∀ v, v ∈ processed_sitemaps st' → v ∉ processed_sitemaps st →
               ∃ s, s ∈ roots ∧ reach w s v;
  ex_closed : ∀ v, v ∈ processed_sitemaps st' → v ∉ processed_sitemaps st →
              (∀ x, x ∈ leaf_urls (doc_locs w v) → x ∈ all_urls st')
              ∧ (∀ s, s ∈ sub_sitemaps (doc_locs w v) →
                      s ∈ processed_sitemaps st');
  ex_kept : ∀ x, x ∈ all_urls st' → x ∉ all_urls st →
            x ∈ leaves
            ∨ ∃ v, v ∈ processed_sitemaps st' ∧ (v ∉ processed_sitemaps st)
                   ∧ x ∈ leaf_urls (doc_locs w v)
}.

End Exploration.

(** ** The [__main__] block of sitemap_extractor.py *)

Module CrawlerMain.
Import PyStr SitemapExtractor.

Definition initial_sitemap_url : string :=
  "https://www.incontri-italia.it/sitemap.xml".

(** Line 54. *)
Definition batch_size : nat := 75.

(** Line 86: the name of the file of the batch numbered [n]. *)
Definition name_of_number (n : nat) : string :=
  "list-" +:+ format_03d n +:+ ".md".

(** A character other than the backslash. *)
Definition not_backslash (c : ascii) : bool :=
  negb (bool_decide (c = "\"%char)).

(** [str(n)] for a count, as an f-string prints it. *)
Definition str_of_nat (n : nat) : string :=
  NilEmpty.string_of_uint (Nat.to_uint n).

(** What can go wrong while one file is written: nothing; [open] raises,
    and the file is as before; or an exception is raised between [open] and
    the end of the [with] block, when the file was emptied and [written]
    characters have reached it. *)
Inductive file_fault : Type :=
  | Writes
  | FailsAtOpen (e : exn)
  | FailsAtWrite (written : nat) (e : exn).

(** What the block asks of the machine it runs on: the absolute path of the
    output directory, the time as line 107 formats it, the exception that
    [os.makedirs] raises if any, and for a path what goes wrong when the
    file at that path is written. *)
Record Host : Type := {
  abspath_base : string;
  now : string;
  makedirs_error : option exn;
  file_fault_of : string → file_fault
}.

(** The state of the crawl with its trace, and the files by path. *)
Record world : Type := {
  crawl : state;
  files : gmap string string
}.

Definition say (line : string) (wd : world) : world :=
  {| crawl := print line (crawl wd); files := files wd |}.

Definition set_file (path text : string) (wd : world) : world :=
  {| crawl := crawl wd; files := <[path := text]> (files wd) |}.

(** One [with open(path, 'w')] block that writes [text] in all. *)
Definition write_file (host : Host) (path text : string) (wd : world)
    : outcome * world :=
  match file_fault_of host path with
  | Writes => (Returned, set_file path text wd)
  | FailsAtOpen e => (Raised e, wd)
  | FailsAtWrite written e =>
      (Raised e, set_file path (UpdateSitemap.prefix_of written text) wd)
  end.

(** Lines 79 to 102: the loop over the batches; an exception raised while
    a file is written leaves the loop and the block. *)
Fixpoint write_batches (host : Host) (bs : list batch)
    (batch_files_details : list (string * string)) (wd : world)
    : outcome * list (string * string) * world :=
  match bs with
  | [] => (Returned, batch_files_details, wd)
  | b :: rest =>
      let batch_files_details := batch_files_details ++ [batch_details b] in
      match write_file host (batch_filepath b) (batch_file_text b) wd with
      | (Raised e, wd) => (Raised e, batch_files_details, wd)
      | (Returned, wd) =>
          let wd :=
            say ("Successfully wrote "
                 +:+ str_of_nat (length (current_batch_urls b))
                 +:+ " URLs to " +:+ batch_filepath b) wd in
          write_batches host rest batch_files_details wd
      end
  end.

Definition readme_filepath : string := path_join output_base_dir readme_filename.

(** Lines 121 to 125. *)
Definition readme_links (batch_files_details : list (string * string))
    : string :=
  match batch_files_details with
  | [] => "No link batches were generated." +:+ nl
  | _ =>
      foldr (λ d rest, "- [" +:+ d.1 +:+ "](" +:+ d.2 +:+ ")" +:+ nl +:+ rest)
        "" batch_files_details
  end.

(** Lines 109 to 132: everything written to the index. *)
Definition readme_text (current_time_for_readme : string)
    (batch_files_details : list (string * string)) : string :=
  "# Incontri Italia - Curated Link Showcase" +:+ nl +:+ nl
  +:+ "**Last Updated:** " +:+ current_time_for_readme +:+ nl
  +:+ "**Source Sitemap:** [" +:+ initial_sitemap_url +:+ "]("
    +:+ initial_sitemap_url +:+ ")" +:+ nl +:+ nl
  +:+ "## Welcome!" +:+ nl +:+ nl
  +:+ "This repository organizes key pages and resources from [incontri-italia.it](https://www.incontri-italia.it/), presented in manageable batches to aid in discovery and navigation. "
  +:+ "Our platform, Incontri Italia, is dedicated to [Your Site's Main Purpose - e.g., fostering connections across Italy]. "
  +:+ "We offer [Briefly describe services - e.g., user profiles, classifieds] to help you connect."
    +:+ nl +:+ nl
  +:+ "Please replace the placeholder text above with your detailed website description!"
    +:+ nl +:+ nl
  +:+ "## Explore Our Link Collections" +:+ nl +:+ nl
  +:+ "Below is a directory of Markdown files, each containing a batch of URLs from our website:"
    +:+ nl +:+ nl
  +:+ readme_links batch_files_details
  +:+ nl +:+ "## About This Repository" +:+ nl +:+ nl
  +:+ "This collection is provided to enhance the visibility and accessibility of content from incontri-italia.it. "
  +:+ "It can be useful for archival purposes and for search engines to better understand our site structure."
    +:+ nl +:+ nl
  +:+ "---" +:+ nl +:+ nl
  +:+ "For the complete and most up-to-date experience, please visit our main website: **[incontri-italia.it](https://www.incontri-italia.it/)**"
    +:+ nl.

(** Lines 134 to 144. *)
Definition say_done (host : Host) (n_details n_urls n_sitemaps : nat)
    (wd : world) : world :=
  let wd := say ("Successfully created " +:+ readme_filename
                 +:+ " with links to " +:+ str_of_nat n_details
                 +:+ " batch files.") wd in
  let wd := say (nl +:+ "Total unique URLs processed: "
                 +:+ str_of_nat n_urls) wd in
  let wd := say ("Total sitemaps processed: " +:+ str_of_nat n_sitemaps) wd in
  let wd := say ("Output generated in directory: " +:+ abspath_base host) wd in
  let wd := say (nl +:+ "Next Steps for GitHub Pages:") wd in
  let wd := say ("1. Review the generated files in the '" +:+ output_base_dir
                 +:+ "' directory.") wd in
  let wd := say ("2. **Crucially, customize the main " +:+ readme_filename
                 +:+ "** (especially the 'Welcome!' section) with your detailed website description using the prompts we discussed.") wd in
  let wd := say "3. Create a new public GitHub repository (e.g., name it 'incontri-italia-link-showcase')." wd in
  let wd := say ("4. Upload the entire contents of the '" +:+ output_base_dir
                 +:+ "' directory (including the '" +:+ readme_filename
                 +:+ "' and the 'lists/' subdirectory) to this new GitHub repository.") wd in
  let wd := say "5. Enable GitHub Pages for this repository (Settings -> Pages). " wd in
  say "6. Submit your GitHub Pages site URL to Google Search Console and Bing Webmaster Tools." wd.

(** Lines 68 to 144: what the block does once the crawl has ended in [st],
    on the files [fs]. *)
Definition publish (host : Host) (st : state) (fs : gmap string string)
    : outcome * world :=
  let wd := {| crawl := st; files := fs |} in
  let wd := say (nl +:+ "Extraction complete. Found "
                 +:+ str_of_nat (size (all_urls st)) +:+ " unique URLs.") wd in
  if bool_decide (all_urls st = ∅) then
    (Returned, say "No URLs were extracted. Halting further processing." wd)
  else
    let sorted_urls := sorted_urls (all_urls st) in
    let num_batches := num_batches batch_size sorted_urls in
    let wd := say ("Preparing to write URLs into " +:+ str_of_nat num_batches
                   +:+ " batch files...") wd in
    match write_batches host (batches batch_size sorted_urls) [] wd with
    | (Raised e, _, wd) => (Raised e, wd)
    | (Returned, batch_files_details, wd) =>
        let wd := say (nl +:+ "Creating main " +:+ readme_filename +:+ " at "
                       +:+ readme_filepath +:+ "...") wd in
        match write_file host readme_filepath
                (readme_text (now host) batch_files_details) wd with
        | (Raised e, wd) => (Raised e, wd)
        | (Returned, wd) =>
            (Returned,
             say_done host (length batch_files_details) (length sorted_urls)
               (size (processed_sitemaps st)) wd)
        end
    end.

(** Lines 63 and 64. *)
Definition empty_state : state :=
  {| all_urls := ∅; processed_sitemaps := ∅; trace := [] |}.

(** The whole block, on the files [fs]; [depth] bounds the nesting of the
    crawl. An exception that nothing catches ends the block. *)
Definition main (host : Host) (w : Remote) (depth : nat)
    (fs : gmap string string) : option (outcome * world) :=
  match makedirs_error host with
  | Some e => Some (Raised e, {| crawl := empty_state; files := fs |})
  | None =>
      let st :=
        print ("Output directory structure will be created in: "
               +:+ abspath_base host) empty_state in
      let st := print ("Starting extraction from: " +:+ initial_sitemap_url) st in
      match get_sitemap_urls w depth initial_sitemap_url st with
      | None => None
      | Some (Raised e, st) => Some (Raised e, {| crawl := st; files := fs |})
      | Some (Returned, st) => Some (publish host st fs)
      end
  end.

End CrawlerMain.

(** ** The [__main__] block of update_sitemap.py *)

Module RegeneratorMain.
Import UpdateSitemap.

(** Lines 67 to 71; what [generate_sitemap_entries] prints comes first, and
    an exception that leaves it ends the block. *)
Definition main (env : Env) (linesep : string) (fl : Faults) (st : state)
    : outcome * state :=
  let '(generated, printed) := generate_sitemap_entries env in
  let st := {| files := files st; stdout := stdout st +:+ printed |} in
  match generated with
  | inl e => (Raised e, st)
  | inr [] => (Returned, print "No sitemap entries were generated." st)
  | inr generated_entries => write_sitemap linesep fl generated_entries st
  end.

End RegeneratorMain.

(** ** A site at the address that the crawler starts from *)

Module Showcase.
Import ET SitemapExtractor CrawlerMain.

Definition page_loc (t : string) : Element :=
  Elem (qname sitemap_ns "url") None [Elem (qname sitemap_ns "loc") (Some t) []].

(** The index holds a page, then a sitemap whose request raises something
    that is no [RequestException], and after it another page. *)
Definition flaky_doc : Element :=
  Elem (qname sitemap_ns "urlset") None
    [page_loc "https://www.incontri-italia.it/early-page";
     page_loc "https://www.incontri-italia.it/broken.xml";
     page_loc "https://www.incontri-italia.it/late-page"].

Definition flaky_site : Remote :=
  {| requests_get := λ url,
       if bool_decide (url = initial_sitemap_url) then inr "<urlset/>"
       else inl (OtherException "unexpected keyword argument");
     ET_fromstring := λ _, inr flaky_doc |}.

(** The state of the crawl of [flaky_site] when the loop comes to the
    sitemap, and the state in which the crawl ends. *)
Definition flaky_before : state :=
  add_url "https://www.incontri-italia.it/early-page"
    (send initial_sitemap_url
       (add_processed initial_sitemap_url
          (print ("Processing sitemap: " +:+ initial_sitemap_url)
             empty_state))).

Definition flaky_final : state :=
  handle initial_sitemap_url (OtherException "unexpected keyword argument")
    (send "https://www.incontri-italia.it/broken.xml"
       (add_processed "https://www.incontri-italia.it/broken.xml"
          (print ("Processing sitemap: "
                  +:+ "https://www.incontri-italia.it/broken.xml")
             flaky_before))).

(** The index lists three pages. *)
Definition pages_doc : Element :=
  Elem (qname sitemap_ns "urlset") None
    [page_loc "https://www.incontri-italia.it/roma";
     page_loc "https://www.incontri-italia.it/milano";
     page_loc "https://www.incontri-italia.it/napoli"].

Definition pages_site : Remote :=
  {| requests_get := λ url,
       if bool_decide (url = initial_sitemap_url) then inr "<urlset/>"
       else inl (RequestException "404 Client Error");
     ET_fromstring := λ _, inr pages_doc |}.

(** Nothing is served. *)
Definition dead_site : Remote :=
  {| requests_get := λ _, inl (RequestException "Connection refused");
     ET_fromstring := λ _, inl (ParseError "no element found") |}.

Definition good_host : Host :=
  {| abspath_base := "/home/user/incontri-italia-link-showcase";
     now := "2025-05-20 10:30:00";
     makedirs_error := None;
     file_fault_of := λ _, Writes |}.

(** The index cannot be opened for writing. *)
Definition readme_locked : Host :=
  {| abspath_base := "/home/user/incontri-italia-link-showcase";
     now := "2025-05-20 10:30:00";
     makedirs_error := None;
     file_fault_of := λ path,
       if bool_decide (path = readme_filepath)
       then FailsAtOpen (OtherException "[Errno 13] Permission denied")
       else Writes |}.

(** The disk fills up while the first batch file is written. *)
Definition disk_fills : Host :=
  {| abspath_base := "/home/user/incontri-italia-link-showcase";
     now := "2025-05-20 10:30:00";
     makedirs_error := None;
     file_fault_of := λ path,
       if bool_decide (path = readme_filepath) then Writes
       else FailsAtWrite 20 (OtherException "[Errno 28] No space left on device") |}.

(** The files before the run: an index of an earlier run. *)
Definition old_files : gmap string string :=
  {[readme_filepath := "old index"]}.

(** The runs of the block on these sites and hosts, and the worlds they
    end in. *)
Definition no_world : world := {| crawl := empty_state; files := ∅ |}.

Definition world_of (run : option (outcome * world)) : world :=
  match run with Some (_, wd) => wd | None => no_world end.

Definition pages_world : world :=
  world_of (main good_host pages_site 2 old_files).

Definition locked_world : world :=
  world_of (main readme_locked pages_site 2 old_files).

Definition dead_world : world :=
  world_of (main good_host dead_site 2 old_files).

Definition full_world : world :=
  world_of (main disk_fills pages_site 2 old_files).

End Showcase.

(** * Properties *)

(** ** Trimming *)

Module PyStrFacts.
Import PyStr.

Section Strip.
Variable sp : ascii → bool.

Lemma rstrip_with_idemp s : rstrip_with sp (rstrip_with sp s) = rstrip_with sp s.
Proof.
  induction s as [|c s IH]; [done|]. simpl.
  destruct (rstrip_with sp s) as [|d r] eqn:E.
  - destruct (sp c) eqn:Ec; simpl; [done|]. by rewrite Ec.
  - simpl in *. by rewrite IH.
Qed.

Lemma lstrip_with_head s :
  match lstrip_with sp s with String c _ => sp c = false | "" => True end.
Proof.
  induction s as [|c s IH]; [done|]. simpl.
  destruct (sp c) eqn:Ec; [done|]. done.
Qed.

Lemma rstrip_with_head c s :
  sp c = false → ∃ r, rstrip_with sp (String c s) = String c r.
Proof.
  intros Hc. simpl. destruct (rstrip_with sp s); [|by eexists].
  rewrite Hc. by eexists.
Qed.

Lemma lstrip_rstrip_with s :
  lstrip_with sp (strip_with sp s) = strip_with sp s.
Proof.
  unfold strip_with. pose proof (lstrip_with_head s) as H.
  destruct (lstrip_with sp s) as [|c t]; [done|].
  destruct (rstrip_with_head c t H) as [r ->]. simpl. by rewrite H.
Qed.

Lemma strip_with_idemp s : strip_with sp (strip_with sp s) = strip_with sp s.
Proof.
  unfold strip_with at 1. rewrite lstrip_rstrip_with.
  unfold strip_with. apply rstrip_with_idemp.
Qed.

Lemma strip_with_all s : all_with sp s = true → strip_with sp s = "".
Proof.
  unfold strip_with. induction s as [|c s IH]; [done|]. simpl.
  intros [Hc Hs]%andb_prop. rewrite Hc. auto.
Qed.

End Strip.

Example strip_both_ends : strip "  https://a.it/x " = "https://a.it/x".
Proof. reflexivity. Qed.

Example strip_inner_blank_kept : strip " a b " = "a b".
Proof. reflexivity. Qed.

Example endswith_xml :
  endswith "https://a.it/s.xml" ".xml" = true ∧ endswith "xml" ".xml" = false.
Proof. split; reflexivity. Qed.

Example split_scheme : split "https://a.it/x" "//" = ["https:"; "a.it/x"].
Proof. reflexivity. Qed.

Example split_no_overlap : split "a///b//" "//" = ["a"; "/b"; ""].
Proof. reflexivity. Qed.

Example replace_pairs : replace "a\\\b\c" "\\" "/" = "a/\b\c".
Proof. reflexivity. Qed.

Example format_03d_pads :
  format_03d 7 = "007" ∧ format_03d 42 = "042" ∧ format_03d 1234 = "1234".
Proof. split_and!; reflexivity. Qed.

Lemma strip_idemp s : strip (strip s) = strip s.
Proof. apply strip_with_idemp. Qed.

Lemma strip_all_space s : all_with is_space s = true → strip s = "".
Proof. apply strip_with_all. Qed.

End PyStrFacts.

(** ** The recursive resolver *)

Module CrawlFacts.
Import PyStr ET SitemapExtractor PyStrFacts.

Lemma gets_app evs1 evs2 : gets (evs1 ++ evs2) = gets evs1 ++ gets evs2.
Proof. apply omap_app. Qed.

Lemma snapshots_app evs1 evs2 :
  snapshots (evs1 ++ evs2) = snapshots evs1 ++ snapshots evs2.
Proof. apply omap_app. Qed.

Lemma elem_of_snapshots P evs : P ∈ snapshots evs → ∃ u, Get u P ∈ evs.
Proof.
  unfold snapshots. rewrite list_elem_of_omap.
  intros ([l|u Q] & Hin & Heq); simplify_eq. eauto.
Qed.

Lemma extends_refl st : extends st st [].
Proof.
  split; simpl; [done|done| |done| | | |].
  - intros x Hx Hnx. done.
  - intros u Hu. by apply elem_of_nil in Hu.
  - constructor.
  - constructor.
  - constructor.
Qed.

Lemma extends_trans st1 st2 st3 evs1 evs2 :
  extends st1 st2 evs1 → extends st2 st3 evs2 → extends st1 st3 (evs2 ++ evs1).
Proof.
  intros [T1 U1 L1 P1 G1 N1 M1 S1] [T2 U2 L2 P2 G2 N2 M2 S2]. split.
  - by rewrite T2, T1, (assoc_L (++)).
  - set_solver.
  - intros x Hx Hnx. destruct (decide (x ∈ all_urls st2)); auto.
  - set_solver.
  - intros u. rewrite gets_app, elem_of_app. intros [Hu|Hu].
    + destruct (G2 u Hu). set_solver.
    + destruct (G1 u Hu). set_solver.
  - rewrite gets_app. apply NoDup_app. split_and!; [done| |done].
    intros u Hu2 Hu1. destruct (G2 u Hu2), (G1 u Hu1). done.
  - apply Forall_app. split.
    + eapply Forall_impl; [exact M2|]. intros [l|u P]; [done|]. set_solver.
    + eapply Forall_impl; [exact M1|]. intros [l|u P]; [done|]. set_solver.
  - rewrite snapshots_app. apply StronglySorted_app. split_and!; [|done..].
    intros P Q [u HP]%elem_of_snapshots [v HQ]%elem_of_snapshots.
    rewrite Forall_forall in M1, M2.
    specialize (M2 _ HP). specialize (M1 _ HQ). simpl in *. set_solver.
Qed.

Lemma extends_print line st : extends st (print line st) [Print line].
Proof.
  split; simpl; [done|done| |done| | | |].
  - intros x Hx Hnx. done.
  - intros u Hu. by apply elem_of_nil in Hu.
  - constructor.
  - repeat constructor.
  - constructor.
Qed.

Lemma extends_add_url t st :
  endswith (strip t) ".xml" = false → extends st (add_url (strip t) st) [].
Proof.
  intros Ht. split; simpl; [done| | |done| | | |].
  - apply union_subseteq_r.
  - intros x [->%elem_of_singleton|Hx]%elem_of_union Hnx; [|done].
    by rewrite strip_idemp.
  - intros u Hu. by apply elem_of_nil in Hu.
  - constructor.
  - constructor.
  - constructor.
Qed.

Lemma extends_send url st :
  url ∉ processed_sitemaps st →
  extends st (send url (add_processed url st))
    [Get url ({[url]} ∪ processed_sitemaps st)].
Proof.
  intros Hn. split; simpl; [done|done| | | | | |].
  - intros x Hx Hnx. done.
  - apply union_subseteq_r.
  - intros u ->%list_elem_of_singleton. split; [done|].
    apply elem_of_union_l. by apply elem_of_singleton.
  - apply NoDup_singleton.
  - constructor; [|constructor]. split_and!; [|apply union_subseteq_r|done].
    apply elem_of_union_l. by apply elem_of_singleton.
  - repeat constructor.
Qed.

Lemma handle_print url ex st : ∃ line, handle url ex st = print line st.
Proof. destruct ex; by eexists. Qed.

Lemma extends_handle url ex st st1 evs :
  extends st st1 evs → ∃ evs', extends st (handle url ex st1) evs'.
Proof.
  intros H. destruct (handle_print url ex st1) as [line ->].
  eexists. eapply extends_trans; [exact H|apply extends_print].
Qed.

(** The loop keeps what every call keeps. *)
Lemma for_loc_elements_extends call locs :
  (∀ u st r st', call u st = Some (r, st') → ∃ evs, extends st st' evs) →
  ∀ st r st',
    for_loc_elements call locs st = Some (r, st') → ∃ evs, extends st st' evs.
Proof.
  intros Hcall.
  induction locs as [|e rest IH]; intros st r st' Hrun; simpl in Hrun.
  { simplify_eq. eexists. apply extends_refl. }
  destruct (text e) as [t|]; [|by eauto].
  case_bool_decide; [by eauto|].
  destruct (endswith (strip t) ".xml") eqn:Hxml.
  - destruct (call (strip t) st) as [[[|ex] st1]|] eqn:Hc; [| |done].
    + destruct (Hcall _ _ _ _ Hc) as [evs1 H1].
      destruct (IH _ _ _ Hrun) as [evs2 H2].
      eexists. eapply extends_trans; eauto.
    + simplify_eq. eauto.
  - destruct (IH _ _ _ Hrun) as [evs2 H2].
    eexists. eapply extends_trans; [by apply extends_add_url|done].
Qed.

(** Every call that returns or raises has kept the sets growing, the leaves
    trimmed and free of sitemaps, and the requests single and marked. *)
Lemma get_sitemap_urls_extends w depth :
  ∀ url st r st',
    get_sitemap_urls w depth url st = Some (r, st') → ∃ evs, extends st st' evs.
Proof.
  induction depth as [|n IH]; intros url st r st' Hrun; [done|].
  simpl in Hrun. case_bool_decide as Hin.
  { simplify_eq. eexists. apply extends_print. }
  pose proof (extends_trans _ _ _ _ _
    (extends_print ("Processing sitemap: " +:+ url) st)
    (extends_send url (print ("Processing sitemap: " +:+ url) st) Hin)) as Hmid.
  set (mid := send url (add_processed url (print _ st))) in *.
  destruct (requests_get w url) as [ex|body].
  { destruct ex; simplify_eq; eauto.
    eexists. eapply extends_trans; [exact Hmid|apply extends_print]. }
  case_bool_decide.
  { simplify_eq. eexists. eapply extends_trans; [exact Hmid|apply extends_print]. }
  destruct (ET_fromstring w (bstrip body)) as [ex|root].
  { simplify_eq. by eapply extends_handle. }
  destruct (for_loc_elements _ _ mid) as [[[|ex] st1]|] eqn:Hloop; [| |done].
  - simplify_eq.
    destruct (for_loc_elements_extends _ _ (IH) _ _ _ Hloop) as [evs H1].
    eexists. eapply extends_trans; eauto.
  - simplify_eq.
    destruct (for_loc_elements_extends _ _ (IH) _ _ _ Hloop) as [evs H1].
    eapply extends_handle. eapply extends_trans; eauto.
Qed.

(** A call on a url that is not yet processed starts by printing, marking
    the url and sending the request, in this order. *)
Lemma get_sitemap_urls_starts w n url st r st' :
  url ∉ processed_sitemaps st →
  get_sitemap_urls w (S n) url st = Some (r, st') →
  ∃ evs, trace st' = evs ++ [Get url ({[url]} ∪ processed_sitemaps st);
                              Print ("Processing sitemap: " +:+ url)] ++ trace st.
Proof.
  intros Hin Hrun. simpl in Hrun. rewrite bool_decide_eq_false_2 in Hrun by done.
  set (mid := send url (add_processed url (print _ st))) in *.
  assert (∃ evs, extends mid st' evs) as [evs [Ht _ _ _ _ _ _ _]];
    [|by (exists evs; rewrite Ht)].
  destruct (requests_get w url) as [ex|body].
  { destruct ex; simplify_eq; eexists;
      first [apply extends_print|apply extends_refl]. }
  case_bool_decide.
  { simplify_eq. eexists. apply extends_print. }
  destruct (ET_fromstring w (bstrip body)) as [ex|root].
  { simplify_eq. eapply extends_handle, extends_refl. }
  destruct (for_loc_elements _ _ mid) as [[[|ex] st1]|] eqn:Hloop; [| |done].
  - simplify_eq. eapply for_loc_elements_extends; [|done].
    apply get_sitemap_urls_extends.
  - simplify_eq.
    destruct (for_loc_elements_extends _ _ (get_sitemap_urls_extends w n)
                _ _ _ Hloop) as [evs H1].
    by eapply extends_handle.
Qed.

(** *** Termination on a finite closed set of sitemaps *)

Lemma sub_sitemaps_cons e rest :
  sub_sitemaps (e :: rest) =
  match loc_url e with
  | Some u => if endswith u ".xml" then u :: sub_sitemaps rest
              else sub_sitemaps rest
  | None => sub_sitemaps rest
  end.
Proof.
  unfold sub_sitemaps. simpl. destruct (loc_url e) as [u|]; [|done].
  rewrite filter_cons. destruct (endswith u ".xml"); by case_decide.
Qed.

Lemma size_unprocessed_mono (U P Q : gset string) :
  P ⊆ Q → size (U ∖ Q) ≤ size (U ∖ P).
Proof. intros H. apply subseteq_size. set_solver. Qed.

Lemma size_unprocessed_add (U P : gset string) url :
  url ∈ U → url ∉ P → size (U ∖ P) = S (size (U ∖ ({[url]} ∪ P))).
Proof.
  intros HU HP.
  assert (U ∖ P = {[url]} ∪ U ∖ ({[url]} ∪ P)) as ->.
  { apply set_eq. intros x. destruct (decide (x = url)); set_solver. }
  rewrite size_union by set_solver. by rewrite size_singleton.
Qed.

Section Terminates.
Variable w : Remote.
Variable U : gset string.
Hypothesis HU : closed w U.

Lemma for_loc_elements_terminates n locs :
  (∀ url st, url ∈ U → size (U ∖ processed_sitemaps st) < n →
             ∃ r st', get_sitemap_urls w n url st = Some (r, st')) →
  ∀ st, (∀ v, v ∈ sub_sitemaps locs → v ∈ U) →
        size (U ∖ processed_sitemaps st) < n →
        ∃ r st', for_loc_elements (get_sitemap_urls w n) locs st = Some (r, st').
Proof.
  intros IH. induction locs as [|e rest IHl]; intros st Hsub Hsize; simpl.
  { eauto. }
  rewrite sub_sitemaps_cons in Hsub. unfold loc_url in Hsub.
  destruct (text e) as [t|]; [|by auto].
  case_bool_decide; [by auto|].
  destruct (endswith (strip t) ".xml") eqn:Hxml; [|by auto].
  destruct (IH (strip t) st) as ([|ex] & st1 & Hc);
    [apply Hsub; by left|done| |]; rewrite Hc; [|by eauto].
  apply IHl; [intros v Hv; apply Hsub; by right|].
  destruct (get_sitemap_urls_extends _ _ _ _ _ _ Hc) as [evs [_ _ _ HP _ _ _ _]].
  pose proof (size_unprocessed_mono U _ _ HP). lia.
Qed.

Lemma get_sitemap_urls_terminates n :
  ∀ url st, url ∈ U → size (U ∖ processed_sitemaps st) < n →
            ∃ r st', get_sitemap_urls w n url st = Some (r, st').
Proof.
  induction n as [|n IH]; intros url st Hurl Hsize; [lia|].
  simpl. case_bool_decide as Hin; [by eauto|].
  set (mid := send url (add_processed url (print _ st))).
  destruct (requests_get w url) as [ex|body] eqn:Hget.
  { destruct ex; eauto. }
  case_bool_decide; [by eauto|].
  destruct (ET_fromstring w (bstrip body)) as [ex|root] eqn:Hparse; [by eauto|].
  destruct (for_loc_elements_terminates n (loc_elements root) IH mid)
    as ([|ex] & st1 & ->); [by eapply HU| |by eauto..].
  unfold mid. simpl.
  rewrite (size_unprocessed_add U (processed_sitemaps st) url) in Hsize by done.
  lia.
Qed.

End Terminates.

End CrawlFacts.

Module Resolver.
Import PyStr ET SitemapExtractor PyStrFacts CrawlFacts Scenario.

Lemma site_closed : closed site site_sitemaps.
Proof.
  intros u body root Hu Hget Hparse v Hv.
  unfold site_sitemaps in Hu. set_unfold in Hu.
  repeat (destruct Hu as [Hu|Hu]); subst u;
    vm_compute in Hget; simplify_eq;
    vm_compute in Hparse; simplify_eq;
    vm_compute in Hv; set_unfold in Hv; unfold site_sitemaps, site_root;
    set_solver.
Qed.

Lemma site_root_in : site_root ∈ site_sitemaps.
Proof. unfold site_sitemaps. set_solver. Qed.

(** C1. Let [U] be a finite set of sitemap urls that holds [url] and every
    sitemap that a document of [U] refers to (cycles and repeated references
    allowed). Then the call on [url] ends within a nesting depth of one more
    than the number of urls of [U] not yet processed; over the whole call no
    url is requested twice, and no url already in the processed set is
    requested; and when [url] itself is already processed the call only
    prints the skip line and returns. *)
Theorem each_sitemap_fetched_once (w : Remote) (U : gset string)
    (url : string) (st : state) :
  closed w U → url ∈ U →
  ∃ r st' evs,
    get_sitemap_urls w (S (size (U ∖ processed_sitemaps st))) url st
      = Some (r, st')
    ∧ trace st' = evs ++ trace st
    ∧ NoDup (gets evs)
    ∧ (∀ u, u ∈ gets evs → u ∉ processed_sitemaps st)
    ∧ (if bool_decide (url ∈ processed_sitemaps st)
       then r = Returned
            ∧ st' = print ("Skipping already processed sitemap: " +:+ url) st
            ∧ gets evs = []
       else url ∈ gets evs).
Proof.
  intros HU Hurl.
  destruct (get_sitemap_urls_terminates w U HU
              (S (size (U ∖ processed_sitemaps st))) url st Hurl)
    as (r & st' & Hrun); [lia|].
  destruct (get_sitemap_urls_extends _ _ _ _ _ _ Hrun) as [evs Hext].
  exists r, st', evs. destruct Hext as [Ht _ _ _ Hnew Hnd _ _].
  split_and!; [done|done|done|by intros u [? ?]%Hnew|].
  case_bool_decide as Hin.
  - simpl in Hrun. rewrite bool_decide_eq_true_2 in Hrun by done.
    simplify_eq. simpl in Ht.
    change (Print ?l :: ?t) with ([Print l] ++ t) in Ht.
    apply (inj (.++ trace st)) in Ht. by subst.
  - destruct (get_sitemap_urls_starts _ _ _ _ _ _ Hin Hrun) as [evs' Ht'].
    rewrite Ht, (assoc_L (++)) in Ht'. apply (inj (.++ trace st)) in Ht'.
    subst. rewrite gets_app. apply elem_of_app. right. simpl. by left.
Qed.

Lemma each_sitemap_fetched_once_on_site :
  ∃ r st' evs,
    get_sitemap_urls site (S (size (site_sitemaps ∖ processed_sitemaps start)))
      site_root start = Some (r, st')
    ∧ trace st' = evs ++ trace start
    ∧ NoDup (gets evs)
    ∧ (∀ u, u ∈ gets evs → u ∉ processed_sitemaps start)
    ∧ (if bool_decide (site_root ∈ processed_sitemaps start)
       then r = Returned
            ∧ st' = print ("Skipping already processed sitemap: " +:+ site_root)
                      start
            ∧ gets evs = []
       else site_root ∈ gets evs).
Proof.
  exact (each_sitemap_fetched_once site site_sitemaps site_root start
           site_closed site_root_in).
Defined.

(** C3. In every call that ends, returning or raising, the processed set
    has only grown; every request of the call left with its own url already
    in the processed set; the processed sets seen at the successive requests
    only grow; and a call on a url that is not yet processed starts by
    printing, then puts the url into the processed set, then sends the
    request. *)
Theorem marked_before_fetch (w : Remote) (depth : nat) (url : string)
    (st : state) (r : outcome) (st' : state) :
  get_sitemap_urls w depth url st = Some (r, st') →
  processed_sitemaps st ⊆ processed_sitemaps st'
  ∧ ∃ evs,
      trace st' = evs ++ trace st
      ∧ Forall (λ ev, match ev with
                      | Get u P => u ∈ P ∧ processed_sitemaps st ⊆ P
                                   ∧ P ⊆ processed_sitemaps st'
                      | Print _ => True
                      end) evs
      ∧ StronglySorted (λ P Q, Q ⊆ P) (snapshots evs)
      ∧ (if bool_decide (url ∈ processed_sitemaps st)
         then gets evs = []
         else ∃ evs', evs = evs' ++
                [Get url ({[url]} ∪ processed_sitemaps st);
                 Print ("Processing sitemap: " +:+ url)]).
Proof.
  intros Hrun.
  destruct (get_sitemap_urls_extends _ _ _ _ _ _ Hrun) as [evs Hext].
  destruct Hext as [Ht _ _ HP Hnew _ HM HS].
  split; [done|]. exists evs. split_and!; [done..|].
  destruct depth as [|n]; [done|]. case_bool_decide as Hin.
  - destruct (gets evs) as [|u us] eqn:E; [done|].
    destruct (Hnew u) as [Hu _]; [by left|].
    simpl in Hrun. rewrite bool_decide_eq_true_2 in Hrun by done.
    simplify_eq. simpl in Ht.
    change (Print ?l :: ?t) with ([Print l] ++ t) in Ht.
    apply (inj (.++ trace st)) in Ht. by subst.
  - destruct (get_sitemap_urls_starts _ _ _ _ _ _ Hin Hrun) as [evs' Ht'].
    rewrite Ht, (assoc_L (++)) in Ht'. apply (inj (.++ trace st)) in Ht'.
    by exists evs'.
Qed.

Lemma site_run_eq : site_run = Some (Returned, site_final).
Proof. vm_compute. reflexivity. Qed.

Lemma marked_before_fetch_on_site :
  processed_sitemaps start ⊆ processed_sitemaps site_final
  ∧ ∃ evs,
      trace site_final = evs ++ trace start
      ∧ Forall (λ ev, match ev with
                      | Get u P => u ∈ P ∧ processed_sitemaps start ⊆ P
                                   ∧ P ⊆ processed_sitemaps site_final
                      | Print _ => True
                      end) evs
      ∧ StronglySorted (λ P Q, Q ⊆ P) (snapshots evs)
      ∧ (if bool_decide (site_root ∈ processed_sitemaps start)
         then gets evs = []
         else ∃ evs', evs = evs' ++
                [Get site_root ({[site_root]} ∪ processed_sitemaps start);
                 Print ("Processing sitemap: " +:+ site_root)]).
Proof.
  exact (marked_before_fetch site 6 site_root start Returned site_final
           site_run_eq).
Defined.

Lemma site_final_p2 : "https://s.it/p2" ∈ all_urls site_final.
Proof.
  apply (bool_decide_unpack ("https://s.it/p2" ∈ all_urls site_final)).
  vm_compute. exact I.
Qed.


(** C5. A call on a url that is not yet processed and whose request fails
    with a [RequestException], or whose body is empty, or whose body the
    parser rejects with a [ParseError], returns; it leaves the leaves as they
    were, the processed set larger by its url only, and the fault printed;
    and the loop that made the call goes on with the locations that
    follow. *)
Theorem fault_stays_local (w : Remote) (n : nat) (url line : string)
    (st : state) (e : Element) (rest : list Element) :
  url ∉ processed_sitemaps st → fault_at w url line →
  loc_url e = Some url → endswith url ".xml" = true →
  get_sitemap_urls w (S n) url st = Some (Returned, after_fault url line st)
  ∧ all_urls (after_fault url line st) = all_urls st
  ∧ processed_sitemaps (after_fault url line st)
    = {[url]} ∪ processed_sitemaps st
  ∧ trace (after_fault url line st)
    = Print line :: Get url ({[url]} ∪ processed_sitemaps st)
      :: Print ("Processing sitemap: " +:+ url) :: trace st
  ∧ for_loc_elements (get_sitemap_urls w (S n)) (e :: rest) st
    = for_loc_elements (get_sitemap_urls w (S n)) rest
        (after_fault url line st).
Proof.
  intros Hin Hfault He Hxml.
  assert (get_sitemap_urls w (S n) url st
          = Some (Returned, after_fault url line st)) as Hrun.
  { simpl. rewrite bool_decide_eq_false_2 by done.
    destruct Hfault as [m Hget|body Hget He0|body m Hget Hne Hparse];
      rewrite Hget; [done| |].
    - by rewrite bool_decide_eq_true_2.
    - rewrite bool_decide_eq_false_2 by done. by rewrite Hparse. }
  split_and!; [done..|].
  unfold loc_url in He. cbn [for_loc_elements].
  destruct (text e) as [t|]; [|done]. case_bool_decide; [done|].
  simplify_eq. by rewrite Hxml, Hrun.
Qed.

Lemma site_b_fault :
  fault_at site "https://s.it/b.xml"
    ("Error parsing XML from " +:+ "https://s.it/b.xml" +:+ ": "
     +:+ "unclosed token: line 1, column 0").
Proof. by apply (fault_parse site _ "<urlset"). Qed.

Lemma fault_stays_local_on_site :
  get_sitemap_urls site 1 "https://s.it/b.xml" start
  = Some (Returned,
          after_fault "https://s.it/b.xml"
            ("Error parsing XML from " +:+ "https://s.it/b.xml" +:+ ": "
             +:+ "unclosed token: line 1, column 0") start)
  ∧ all_urls (after_fault "https://s.it/b.xml"
                ("Error parsing XML from " +:+ "https://s.it/b.xml" +:+ ": "
                 +:+ "unclosed token: line 1, column 0") start)
    = all_urls start
  ∧ processed_sitemaps
      (after_fault "https://s.it/b.xml"
         ("Error parsing XML from " +:+ "https://s.it/b.xml" +:+ ": "
          +:+ "unclosed token: line 1, column 0") start)
    = {["https://s.it/b.xml"]} ∪ processed_sitemaps start
  ∧ trace (after_fault "https://s.it/b.xml"
             ("Error parsing XML from " +:+ "https://s.it/b.xml" +:+ ": "
              +:+ "unclosed token: line 1, column 0") start)
    = Print ("Error parsing XML from " +:+ "https://s.it/b.xml" +:+ ": "
             +:+ "unclosed token: line 1, column 0")
      :: Get "https://s.it/b.xml"
           ({["https://s.it/b.xml"]} ∪ processed_sitemaps start)
      :: Print ("Processing sitemap: " +:+ "https://s.it/b.xml")
      :: trace start
  ∧ for_loc_elements (get_sitemap_urls site 1)
      [loc "https://s.it/b.xml"; loc "https://s.it/p1"] start
    = for_loc_elements (get_sitemap_urls site 1) [loc "https://s.it/p1"]
        (after_fault "https://s.it/b.xml"
           ("Error parsing XML from " +:+ "https://s.it/b.xml" +:+ ": "
            +:+ "unclosed token: line 1, column 0") start).
Proof.
  apply (fault_stays_local site 0 "https://s.it/b.xml" _ start
           (loc "https://s.it/b.xml") [loc "https://s.it/p1"]).
  - apply not_elem_of_empty.
  - exact site_b_fault.
  - reflexivity.
  - reflexivity.
Defined.

(** When every exception that a request raises is a [RequestException], no
    call raises. *)
Lemma get_sitemap_urls_returns (w : Remote) :
  (∀ u ex, requests_get w u = inl ex → ∃ m, ex = RequestException m) →
  ∀ depth url st r st',
    get_sitemap_urls w depth url st = Some (r, st') → r = Returned.
Proof.
  intros Hw depth url st r st' Hrun. destruct depth as [|n]; [done|].
  simpl in Hrun. case_bool_decide; [by simplify_eq|].
  destruct (requests_get w url) as [ex|body] eqn:Hget.
  { destruct (Hw _ _ Hget) as [m ->]. by simplify_eq. }
  case_bool_decide; [by simplify_eq|].
  destruct (ET_fromstring w (bstrip body)); [by simplify_eq|].
  destruct (for_loc_elements _ _ _) as [[[|ex] st1]|]; by simplify_eq.
Qed.

(** *** The two searches for location elements *)

Lemma findall_descendants_nil t root :
  findall_descendants t root = [] ↔ ∀ e, e ∈ descendants root → tag e ≠ t.
Proof.
  unfold findall_descendants. split.
  - intros Hnil e He Ht.
    assert (e ∈ filter (λ x, tag x = t) (descendants root)) as Hin
      by (by apply list_elem_of_filter).
    rewrite Hnil in Hin. by apply elem_of_nil in Hin.
  - intros Hall. induction (descendants root) as [|x l IH]; [done|].
    rewrite filter_cons. case_decide as Hx.
    + by destruct (Hall x (list_elem_of_here _ _)).
    + apply IH. intros e He. apply Hall. by right.
Qed.

Lemma ns_loc_not_bare : qname sitemap_ns "loc" ≠ "loc".
Proof. done. Qed.

(** C9. The search without namespace gives the location elements exactly
    when the search under the sitemaps.org namespace finds none, which is
    when no element beneath the root bears the namespaced tag; and every
    element kept lies beneath the root and bears the namespaced tag, or
    bears the bare tag while the namespaced search found nothing. *)
Theorem namespace_search_first (root : Element) :
  (findall_descendants (qname sitemap_ns "loc") root = []
   ↔ loc_elements root = findall_descendants "loc" root)
  ∧ (findall_descendants (qname sitemap_ns "loc") root = []
     ↔ ∀ e, e ∈ descendants root → tag e ≠ qname sitemap_ns "loc")
  ∧ (findall_descendants (qname sitemap_ns "loc") root ≠ []
     → loc_elements root = findall_descendants (qname sitemap_ns "loc") root)
  ∧ ∀ x, x ∈ loc_elements root →
         x ∈ descendants root
         ∧ (tag x = qname sitemap_ns "loc"
            ∨ tag x = "loc"
              ∧ findall_descendants (qname sitemap_ns "loc") root = []).
Proof.
  split_and!.
  - unfold loc_elements. split.
    + intros ->. by rewrite bool_decide_eq_true_2.
    + case_bool_decide as Hnil; [done|]. intros Heq.
      destruct (findall_descendants (qname sitemap_ns "loc") root)
        as [|x l] eqn:E; [done|].
      assert (x ∈ findall_descendants (qname sitemap_ns "loc") root) as H1
        by (rewrite E; left).
      assert (x ∈ findall_descendants "loc" root) as H2
        by (rewrite <- Heq; left).
      unfold findall_descendants in H1, H2.
      apply list_elem_of_filter in H1 as [H1 _].
      apply list_elem_of_filter in H2 as [H2 _].
      rewrite H2 in H1. by destruct ns_loc_not_bare.
  - apply findall_descendants_nil.
  - intros Hne. unfold loc_elements. by rewrite bool_decide_eq_false_2.
  - intros x. unfold loc_elements. case_bool_decide as Hnil.
    + unfold findall_descendants at 1.
      intros [Ht Hx]%list_elem_of_filter. auto.
    + unfold findall_descendants.
      intros [Ht Hx]%list_elem_of_filter. auto.
Qed.

Example loc_elements_namespaced :
  loc_elements a_doc
  = [loc "https://s.it/p1"; loc "https://s.it/a.xml";
     loc "https://s.it/sitemap.xml"; loc " https://s.it/p2"].
Proof. reflexivity. Qed.

Example loc_elements_bare :
  loc_elements d_doc = [Elem "loc" (Some "https://s.it/p3") []].
Proof. reflexivity. Qed.

Example loc_elements_mixed : loc_elements mixed_doc = [loc "https://s.it/spaced"].
Proof. reflexivity. Qed.

(** The root is not searched: a root that bears the namespaced tag itself
    leaves the namespaced search empty. *)
Example loc_elements_root_not_searched :
  loc_elements
    (Elem (ns_tag "loc") (Some "https://s.it/r")
       [Elem "loc" (Some "https://s.it/q") []])
  = [Elem "loc" (Some "https://s.it/q") []].
Proof. reflexivity. Qed.

(** *** Locations without text, and blank ones *)

Lemma for_loc_elements_no_text call tg ch rest st :
  for_loc_elements call (Elem tg None ch :: rest) st
  = for_loc_elements call rest st.
Proof. done. Qed.

Lemma for_loc_elements_blank call tg t ch rest st :
  t ≠ "" → all_with is_space t = true →
  for_loc_elements call (Elem tg (Some t) ch :: rest) st
  = for_loc_elements call rest (add_url "" st).
Proof.
  intros Ht Hsp. simpl. rewrite bool_decide_eq_false_2 by done.
  by rewrite (strip_all_space t Hsp).
Qed.

(** C10. Take a document whose location elements are one without text and
    one whose text is not empty and holds only whitespace. The call on its
    url returns, and the leaves afterwards are those before and the empty
    string: the element without text adds nothing, the blank one adds the
    empty string. *)
Theorem blank_location_adds_empty_url (w : Remote) (n : nat) (url : string)
    (st : state) (body : string) (root : Element)
    (tag1 tag2 t : string) (ch1 ch2 : list Element) :
  url ∉ processed_sitemaps st →
  requests_get w url = inr body → bstrip body ≠ "" →
  ET_fromstring w (bstrip body) = inr root →
  loc_elements root = [Elem tag1 None ch1; Elem tag2 (Some t) ch2] →
  t ≠ "" → all_with is_space t = true →
  ∃ st', get_sitemap_urls w (S n) url st = Some (Returned, st')
         ∧ all_urls st' = {[""]} ∪ all_urls st.
Proof.
  intros Hin Hget Hne Hparse Hlocs Ht Hsp. eexists. split.
  - cbn [get_sitemap_urls]. rewrite bool_decide_eq_false_2 by done.
    rewrite Hget. rewrite bool_decide_eq_false_2 by done.
    rewrite Hparse, Hlocs.
    rewrite for_loc_elements_no_text, for_loc_elements_blank by done.
    reflexivity.
  - reflexivity.
Qed.

Lemma blank_location_adds_empty_url_on_site :
  ∃ st', get_sitemap_urls site 1 "https://s.it/e.xml" start
           = Some (Returned, st')
         ∧ all_urls st' = {[""]} ∪ all_urls start.
Proof.
  apply (blank_location_adds_empty_url site 0 "https://s.it/e.xml" start
           "<urlset e/>" e_doc (ns_tag "loc") (ns_tag "loc") "   " [] []).
  - apply not_elem_of_empty.
  - reflexivity.
  - vm_compute. discriminate.
  - reflexivity.
  - reflexivity.
  - discriminate.
  - reflexivity.
Defined.

End Resolver.

(** ** The batches *)

Module Batching.
Import PyStr SitemapExtractor Scenario.

Lemma slice_chunk (l : list string) i B :
  slice l (i * B) (i * B + B) = take B (drop (i * B) l).
Proof. unfold slice. by replace (i * B + B - i * B) with B by lia. Qed.

Lemma num_batches_ceil B (l : list string) :
  0 < B → length l ≤ num_batches B l * B < length l + B.
Proof.
  intros HB. unfold num_batches.
  pose proof (Nat.Div0.mul_div_le (length l + B - 1) B).
  pose proof (Nat.mul_succ_div_gt (length l + B - 1) B).
  lia.
Qed.

Lemma chunks_concat B :
  0 < B → ∀ k (l : list string), length l ≤ k * B →
  concat ((λ i, take B (drop (i * B) l)) <$> seq 0 k) = l.
Proof.
  intros HB. induction k as [|k IH]; intros l Hlen.
  { destruct l; [done|simpl in Hlen; lia]. }
  cbn [seq fmap list_fmap concat]. rewrite <- fmap_S_seq, <- list_fmap_compose.
  trans (take B l ++ drop B l); [|apply take_drop]. f_equal.
  rewrite <- (IH (drop B l)) at 1 by (rewrite length_drop; lia).
  f_equal. apply list_fmap_ext. intros _ i _. simpl.
  by rewrite drop_drop.
Qed.

Lemma batches_length B (l : list string) :
  length (batches B l) = num_batches B l.
Proof. unfold batches. by rewrite length_fmap, length_seq. Qed.

Lemma batches_lookup B (l : list string) i b :
  batches B l !! i = Some b →
  i < num_batches B l ∧ b = batch_at B l i.
Proof.
  unfold batches. rewrite list_lookup_fmap.
  destruct (seq 0 (num_batches B l) !! i) as [j|] eqn:E; [|done].
  apply lookup_seq in E as [-> ?]. simpl. intros [= <-]. done.
Qed.

Lemma batches_concat B (l : list string) :
  0 < B → concat (current_batch_urls <$> batches B l) = l.
Proof.
  intros HB. unfold batches. rewrite <- list_fmap_compose.
  rewrite <- (chunks_concat B HB (num_batches B l) l) at 3
    by apply (num_batches_ceil B l HB).
  f_equal. apply list_fmap_ext. intros _ i _. simpl. apply slice_chunk.
Qed.

Lemma length_sorted_urls (X : gset string) : length (sorted_urls X) = size X.
Proof.
  unfold sorted_urls. by rewrite (Permutation_length (merge_sort_Permutation _ _)).
Qed.

Lemma batch_at_spec B (l : list string) i :
  0 < B → i < num_batches B l →
  current_batch_urls (batch_at B l i)
  = slice l ((batch_file_number (batch_at B l i) - 1) * B)
      (batch_file_number (batch_at B l i) * B)
  ∧ 1 ≤ length (current_batch_urls (batch_at B l i)) ≤ B
  ∧ (batch_file_number (batch_at B l i) < num_batches B l →
     length (current_batch_urls (batch_at B l i)) = B).
Proof.
  intros HB Hi. pose proof (num_batches_ceil B l HB) as Hceil.
  pose proof (Nat.mul_le_mono_r (S i) (num_batches B l) B Hi) as Hle.
  simpl in *. split_and!.
  - by replace (i + 1 - 1) with i by lia;
      replace ((i + 1) * B) with (i * B + B) by lia.
  - rewrite slice_chunk, length_take, length_drop. lia.
  - rewrite slice_chunk, length_take, length_drop. lia.
  - intros Hlt.
    pose proof (Nat.mul_le_mono_r (S (i + 1)) (num_batches B l) B Hlt).
    rewrite slice_chunk, length_take, length_drop. simpl in *. lia.
Qed.

(** C2. For a set of urls and a positive batch size [B]: the urls are put in
    lexicographic order; the number of batches [k] is the ceiling of [N / B],
    that is [N <= k * B < N + B]; the batches are numbered 1, 2, ..., [k];
    the batch numbered [i] is the slice of the sorted sequence from index
    [(i - 1) * B] to [i * B], it holds at least one url and at most [B], and
    exactly [B] unless it is the last; and putting the batches end to end
    gives the sorted sequence back, in which no url comes twice and whose
    urls are those of the set. *)
Theorem batches_partition (extracted_urls : gset string) (batch_size : nat) :
  0 < batch_size →
  let urls := sorted_urls extracted_urls in
  let bs := batches batch_size urls in
  Sorted String.le urls
  ∧ urls ≡ₚ elements extracted_urls
  ∧ size extracted_urls ≤ length bs * batch_size
    < size extracted_urls + batch_size
  ∧ batch_file_number <$> bs = seq 1 (length bs)
  ∧ Forall (λ b,
      current_batch_urls b
      = slice urls ((batch_file_number b - 1) * batch_size)
          (batch_file_number b * batch_size)
      ∧ 1 ≤ length (current_batch_urls b) ≤ batch_size
      ∧ (batch_file_number b < length bs →
         length (current_batch_urls b) = batch_size)) bs
  ∧ concat (current_batch_urls <$> bs) = urls
  ∧ NoDup (concat (current_batch_urls <$> bs))
  ∧ list_to_set (concat (current_batch_urls <$> bs)) = extracted_urls.
Proof.
  intros HB urls bs.
  assert (urls ≡ₚ elements extracted_urls) as Hperm
    by apply merge_sort_Permutation.
  assert (concat (current_batch_urls <$> bs) = urls) as Hcat
    by by apply batches_concat.
  split; [apply (Sorted_merge_sort String.le)|].
  split; [done|].
  split.
  { unfold bs. rewrite batches_length, <- length_sorted_urls.
    by apply num_batches_ceil. }
  split.
  { unfold bs. rewrite batches_length. unfold batches.
    rewrite <- list_fmap_compose, <- fmap_S_seq.
    apply list_fmap_ext. intros _ i _. simpl. lia. }
  split.
  { apply Forall_lookup. intros i b [Hi ->]%batches_lookup.
    unfold bs. rewrite batches_length. by apply batch_at_spec. }
  split; [done|].
  split.
  { rewrite Hcat, Hperm. apply NoDup_elements. }
  rewrite Hcat. apply set_eq. intros x.
  rewrite elem_of_list_to_set, Hperm. apply elem_of_elements.
Qed.

Lemma batches_partition_of_three :
  let urls := sorted_urls three_urls in
  let bs := batches 2 urls in
  Sorted String.le urls
  ∧ urls ≡ₚ elements three_urls
  ∧ size three_urls ≤ length bs * 2 < size three_urls + 2
  ∧ batch_file_number <$> bs = seq 1 (length bs)
  ∧ Forall (λ b,
      current_batch_urls b
      = slice urls ((batch_file_number b - 1) * 2) (batch_file_number b * 2)
      ∧ 1 ≤ length (current_batch_urls b) ≤ 2
      ∧ (batch_file_number b < length bs →
         length (current_batch_urls b) = 2)) bs
  ∧ concat (current_batch_urls <$> bs) = urls
  ∧ NoDup (concat (current_batch_urls <$> bs))
  ∧ list_to_set (concat (current_batch_urls <$> bs)) = three_urls.
Proof. apply (batches_partition three_urls 2). lia. Defined.

Example batches_of_three :
  batches 2 (sorted_urls three_urls)
  = [ {| batch_file_number := 1;
         current_batch_urls := ["https://s.it/p1"; "https://s.it/p2"] |};
      {| batch_file_number := 2;
         current_batch_urls := ["https://s.it/p3"] |} ].
Proof. vm_compute. reflexivity. Qed.

Example batch_files_of_three :
  (batch_files 2 three_urls).*1
  = ["incontri-italia-link-showcase/lists/list-001.md";
     "incontri-italia-link-showcase/lists/list-002.md"]
  ∧ batch_details <$> batches 2 (sorted_urls three_urls)
    = [("Link Batch 001", "lists/list-001.md");
       ("Link Batch 002", "lists/list-002.md")]
  ∧ batch_files 2 ∅ = [].
Proof. split_and!; vm_compute; reflexivity. Qed.

Example link_line_of_p1 :
  link_line "https://s.it/p1" = "- [s.it/p1](https://s.it/p1)" +:+ nl.
Proof. reflexivity. Qed.

(** *** The label of a link *)

Lemma startswith_slashes s :
  startswith s "//" = true → ∃ s', s = String "/" (String "/" s').
Proof.
  destruct s as [|a [|b s']]; simpl; try done.
  - by rewrite andb_false_r.
  - repeat case_bool_decide; simpl; try done. subst. eauto.
Qed.

Lemma split_go_no_sep s :
  contains s "//" = false →
  ∀ cur, split_go "//" s 0 cur = [String.rev_app cur s].
Proof.
  induction s as [|c s IH]; intros Hno cur; [done|].
  cbn [contains] in Hno. apply orb_false_elim in Hno as [Hs Hno].
  cbn [split_go]. rewrite Hs. by rewrite IH.
Qed.

Lemma split_go_first s r :
  after_first "//" s = Some r →
  ∀ cur, ∃ piece, split_go "//" s 0 cur = piece :: split_go "//" r 0 "".
Proof.
  induction s as [|c s IH]; intros Hr cur; [done|].
  cbn [after_first split_go] in *.
  destruct (startswith (String c s) "//") eqn:Hs.
  - destruct (startswith_slashes _ Hs) as [s' [= -> ->]].
    simplify_eq. simpl. eauto.
  - by apply IH.
Qed.

(** C8, as the code has it. When nothing after the separator of the scheme
    holds a further [//], the label is the url with its scheme and leading
    slashes stripped, and the line written pairs this label with the whole
    url as the target. *)
Theorem link_text_after_scheme (url : string) :
  contains (after_scheme url) "//" = false →
  link_text url = after_scheme url
  ∧ link_line url
    = "- [" +:+ after_scheme url +:+ "](" +:+ url +:+ ")" +:+ nl.
Proof.
  intros Hno.
  assert (link_text url = after_scheme url) as Heq; [|by rewrite <- Heq].
  unfold link_text, split, after_scheme in *.
  destruct (after_first "//" url) as [r|] eqn:Hr; simpl in *.
  - destruct (split_go_first _ _ Hr "") as [piece ->].
    by rewrite split_go_no_sep.
  - by rewrite split_go_no_sep.
Qed.

Lemma link_text_after_scheme_plain :
  link_text "https://www.incontri-italia.it/annunci/roma"
  = after_scheme "https://www.incontri-italia.it/annunci/roma"
  ∧ link_line "https://www.incontri-italia.it/annunci/roma"
    = "- [" +:+ after_scheme "https://www.incontri-italia.it/annunci/roma"
      +:+ "](" +:+ "https://www.incontri-italia.it/annunci/roma" +:+ ")"
      +:+ nl.
Proof.
  apply (link_text_after_scheme "https://www.incontri-italia.it/annunci/roma").
  reflexivity.
Defined.

(** C8, as the specification has it, fails on a url that holds a second
    [//]: the label is what follows the last separator found, not what
    follows the scheme. *)
Lemma link_text_second_separator :
  link_text "https://www.incontri-italia.it/go?to=https://example.org/x"
  = "example.org/x"
  ∧ after_scheme "https://www.incontri-italia.it/go?to=https://example.org/x"
    = "www.incontri-italia.it/go?to=https://example.org/x"
  ∧ link_text "https://www.incontri-italia.it/go?to=https://example.org/x"
    ≠ after_scheme
        "https://www.incontri-italia.it/go?to=https://example.org/x".
Proof. split_and!; [reflexivity|reflexivity|discriminate]. Qed.

End Batching.

(** ** The regenerator *)

Module Regenerator.
Import PyStr UpdateSitemap Directory.

Lemma replace_go_no_old old new s :
  contains s old = false → replace_go old new s 0 = s.
Proof.
  induction s as [|c s IH]; intros Hno; [done|].
  cbn [contains] in Hno. apply orb_false_elim in Hno as [Hs Hno].
  cbn [replace_go]. rewrite Hs. by rewrite IH.
Qed.

(** A prefix without any backslash holds no pair of them, and none can
    start in it. *)
Lemma contains_after_prefix p s :
  all_with (λ c, negb (bool_decide (c = "\"%char))) p = true →
  contains (p +:+ s) "\\" = contains s "\\".
Proof.
  induction p as [|c p IH]; intros Hp; [done|].
  cbn [all_with] in Hp. apply andb_prop in Hp as [Hc Hp].
  change (String c p +:+ s) with (String c (p +:+ s)).
  cbn [contains startswith]. rewrite IH by done.
  apply negb_true_iff, bool_decide_eq_false in Hc.
  rewrite (bool_decide_eq_false_2 ("\"%char = c)) by done. done.
Qed.

Lemma loc_path_plain filename :
  contains filename "\\" = false →
  loc_path filename = base_url +:+ "/" +:+ lists_dir +:+ "/" +:+ filename.
Proof.
  intros Hno. unfold loc_path, replace. apply replace_go_no_old.
  by rewrite !contains_after_prefix.
Qed.

Lemma for_filenames_plain env filenames :
  Forall (λ f, contains f "\\" = false) filenames →
  ∀ sitemap_entries,
    for_filenames env filenames sitemap_entries
    = sitemap_entries ++
      ((λ f, url_entry (base_url +:+ "/" +:+ lists_dir +:+ "/" +:+ f)
               (default (today env) (mtime_date env (lists_dir +:+ "/" +:+ f)))
               "monthly" "0.8")
       <$> filter (λ f, endswith f ".md" = true) filenames).
Proof.
  induction 1 as [|f rest Hf _ IH]; intros acc; simpl.
  { by rewrite app_nil_r. }
  rewrite filter_cons. destruct (endswith f ".md") eqn:Hmd.
  - rewrite decide_True by done. rewrite IH, <- (assoc_L (++)). simpl.
    by rewrite loc_path_plain.
  - rewrite decide_False by done. apply IH.
Qed.

(** Where no name of the listing holds two backslashes in a row, the list
    returned is the entry of the root (today's date, weekly, priority 1.0)
    followed, in the order of the listing, by one entry for each name that
    ends in [.md]: its location is the base url, the subdirectory and the
    name joined by slashes, its date is the modification date of the file or
    today's date when that cannot be read, monthly, priority 0.8. *)
Lemma generate_sitemap_entries_plain (env : Env) (filenames : list string) :
  listing env = Names filenames →
  Forall (λ f, contains f "\\" = false) filenames →
  (generate_sitemap_entries env).1
  = inr (url_entry (base_url +:+ "/") (today env) "weekly" "1.0"
         :: ((λ f, url_entry (base_url +:+ "/" +:+ lists_dir +:+ "/" +:+ f)
                     (default (today env)
                        (mtime_date env (lists_dir +:+ "/" +:+ f)))
                     "monthly" "0.8")
             <$> filter (λ f, endswith f ".md" = true) filenames)).
Proof.
  intros Hl Hplain. unfold generate_sitemap_entries. rewrite Hl. cbn [fst].
  by rewrite for_filenames_plain.
Qed.

(** A directory that holds exactly [list-001.md] and [list-002.md] gives
    three entries. *)
Example generate_sitemap_entries_two_lists :
  (generate_sitemap_entries two_lists).1
  = inr [url_entry "https://whik59140.github.io/links-italia/" "2025-05-20"
           "weekly" "1.0";
         url_entry "https://whik59140.github.io/links-italia/lists/list-002.md"
           "2025-05-20" "monthly" "0.8";
         url_entry "https://whik59140.github.io/links-italia/lists/list-001.md"
           "2025-05-01" "monthly" "0.8"].
Proof.
  apply (generate_sitemap_entries_plain two_lists _ eq_refl).
  repeat constructor.
Qed.

(** C6. The code at the inputs where it parts from the claim. Line 31 means
    to turn backslashes into slashes (the comment of line 30) and its
    literal holds two of them. For a file named [a], two backslashes,
    [b.md], the location ends in [a/b.md], which is not the base url, the
    subdirectory and the name joined; for a file named [a], one backslash,
    [b.md], the location keeps the backslash. *)
Theorem generate_sitemap_entries_odd_name :
  (generate_sitemap_entries odd_name).1
  = inr [url_entry "https://whik59140.github.io/links-italia/" "2025-05-20"
           "weekly" "1.0";
         url_entry "https://whik59140.github.io/links-italia/lists/a/b.md"
           "2025-05-01" "monthly" "0.8"]
  ∧ base_url +:+ "/" +:+ lists_dir +:+ "/" +:+ "a\\b.md"
    = "https://whik59140.github.io/links-italia/lists/a\\b.md"
  ∧ endswith "a\\b.md" ".md" = true
  ∧ (generate_sitemap_entries one_backslash).1
    = inr [url_entry "https://whik59140.github.io/links-italia/" "2025-05-20"
             "weekly" "1.0";
           url_entry "https://whik59140.github.io/links-italia/lists/a\b.md"
             "2025-05-01" "monthly" "0.8"].
Proof. split_and!; reflexivity. Qed.

(** *** Writing the file *)

Lemma handle_io e st :
  is_io e = true →
  handle e st
  = (Returned, print ("Error writing sitemap.xml: " +:+ exn_str e) st).
Proof. by destruct e. Qed.

Lemma files_print_lines lines st :
  files (foldl (λ st line, print_raw line st) st lines) = files st.
Proof.
  revert st. induction lines as [|l lines IH]; intros st; [done|].
  simpl. by rewrite IH.
Qed.

(** C7, as the code has it. When every fault is an [IOError], the call
    returns. Without a fault the file holds the whole document. When [open]
    fails the files are as before; when the writing fails after [written]
    characters, the file holds those characters of the new document and
    nothing of what it held before. In both cases the fault is printed as
    one line. *)
Theorem write_sitemap_reports (linesep : string) (fl : Faults)
    (entries : list string) (st : state) :
  only_io fl = true →
  (write_sitemap linesep fl entries st).1 = Returned
  ∧ files (write_sitemap linesep fl entries st).2
    = match on_write fl with
      | NoFault =>
          <["sitemap.xml" := sitemap_content linesep entries]> (files st)
      | AtOpen _ => files st
      | AtWrite written _ =>
          <["sitemap.xml" := prefix_of written (sitemap_content linesep entries)]>
            (files st)
      end
  ∧ match on_write fl, on_read fl with
    | NoFault, None => True
    | NoFault, Some e =>
        stdout (write_sitemap linesep fl entries st).2
        = (stdout st +:+ "sitemap.xml has been successfully updated." +:+ nl)
          +:+ ("Error writing sitemap.xml: " +:+ exn_str e) +:+ nl
    | AtOpen e, _ | AtWrite _ e, _ =>
        stdout (write_sitemap linesep fl entries st).2
        = stdout st +:+ ("Error writing sitemap.xml: " +:+ exn_str e) +:+ nl
    end.
Proof.
  unfold only_io, write_sitemap. intros [Hw Hr]%andb_prop.
  destruct (on_write fl) as [|e|written e].
  - unfold verify. simpl. rewrite lookup_insert_eq.
    destruct (on_read fl) as [e|].
    + by rewrite handle_io.
    + simpl. by rewrite files_print_lines.
  - by rewrite handle_io.
  - by rewrite handle_io.
Qed.

Lemma write_sitemap_reports_disk_full :
  (write_sitemap nl disk_full ["<url/>"] with_old_sitemap).1 = Returned
  ∧ files (write_sitemap nl disk_full ["<url/>"] with_old_sitemap).2
    = <["sitemap.xml" := prefix_of 5 (sitemap_content nl ["<url/>"])]>
        (files with_old_sitemap)
  ∧ stdout (write_sitemap nl disk_full ["<url/>"] with_old_sitemap).2
    = stdout with_old_sitemap
      +:+ ("Error writing sitemap.xml: "
           +:+ "[Errno 28] No space left on device") +:+ nl.
Proof.
  apply (write_sitemap_reports nl disk_full ["<url/>"] with_old_sitemap).
  reflexivity.
Defined.

(** C7, as the specification has it, fails when the disk fills up while
    the file is written: the earlier sitemap is gone and the file holds the
    first five characters of the new one. *)
Lemma write_sitemap_not_atomic :
  files with_old_sitemap !! "sitemap.xml" = Some "<old/>"
  ∧ (write_sitemap nl disk_full ["<url/>"] with_old_sitemap).1 = Returned
  ∧ files (write_sitemap nl disk_full ["<url/>"] with_old_sitemap).2
      !! "sitemap.xml" = Some "<?xml"
  ∧ prefix_of 5 (sitemap_content nl ["<url/>"]) ≠ sitemap_content nl ["<url/>"].
Proof. split_and!; [reflexivity..|discriminate]. Qed.

End Regenerator.

(** ** What a crawl collects *)

Module Explore.
Import PyStr ET SitemapExtractor PyStrFacts CrawlFacts Exploration.

Lemma leaf_urls_cons e rest :
  leaf_urls (e :: rest) =
  match loc_url e with
  | Some u => if endswith u ".xml" then leaf_urls rest
              else u :: leaf_urls rest
  | None => leaf_urls rest
  end.
Proof.
  unfold leaf_urls. simpl. destruct (loc_url e) as [u|]; [|done].
  rewrite filter_cons. destruct (endswith u ".xml"); by case_decide.
Qed.

Lemma reach_trans w a b c : reach w a b → reach w b c → reach w a c.
Proof.
  intros Hab Hbc. induction Hbc as [|v s _ IH Hs]; [done|].
  by eapply reach_step.
Qed.

(** Only the two sets of the state at the end matter. *)
Lemma explored_same_sets w roots leaves st st1 st2 :
  all_urls st2 = all_urls st1 →
  processed_sitemaps st2 = processed_sitemaps st1 →
  explored w roots leaves st st1 → explored w roots leaves st st2.
Proof.
  intros Hu Hp [H1 H2 H3 H4 H5 H6 H7].
  split; rewrite ?Hu, ?Hp; done.
Qed.

Lemma explored_nil w st : explored w [] [] st st.
Proof.
  split; try done.
  - intros s Hs. by apply elem_of_nil in Hs.
  - intros x Hx. by apply elem_of_nil in Hx.
Qed.

Lemma explored_skip w u st :
  u ∈ processed_sitemaps st → explored w [u] [] st st.
Proof.
  intros Hu. split; try done.
  - by intros s ->%list_elem_of_singleton.
  - intros x Hx. by apply elem_of_nil in Hx.
Qed.

Lemma explored_cons_leaf w roots leaves x st st' :
  explored w roots leaves (add_url x st) st' →
  explored w roots (x :: leaves) st st'.
Proof.
  intros [H1 H2 H3 H4 H5 H6 H7]. simpl in *. split; try done.
  - etrans; [|exact H1]. apply union_subseteq_r.
  - intros y [->|Hy]%elem_of_cons; [|by auto].
    apply H1. apply elem_of_union_l. by apply elem_of_singleton.
  - intros y Hy Hny. destruct (decide (y = x)) as [->|Hne]; [left; by left|].
    destruct (H7 y Hy) as [Hl|Hv]; [|left; by right|by right].
    intros [Hx%elem_of_singleton|Hin]%elem_of_union; done.
Qed.

Lemma explored_cons_sub w roots leaves s st st1 st' :
  explored w [s] [] st st1 → explored w roots leaves st1 st' →
  explored w (s :: roots) leaves st st'.
Proof.
  intros [A1 A2 A3 A4 A5 A6 A7] [B1 B2 B3 B4 B5 B6 B7]. split.
  - by etrans.
  - by etrans.
  - intros r [->|Hr]%elem_of_cons; [|by auto].
    apply B2, A3. by left.
  - done.
  - intros v Hv Hnv. destruct (decide (v ∈ processed_sitemaps st1)) as [Hv1|Hv1].
    + destruct (A5 v Hv1 Hnv) as (r & ->%list_elem_of_singleton & Hr).
      exists s. split; [by left|done].
    + destruct (B5 v Hv Hv1) as (r & Hr & Hreach).
      exists r. split; [by right|done].
  - intros v Hv Hnv. destruct (decide (v ∈ processed_sitemaps st1)) as [Hv1|Hv1].
    + destruct (A6 v Hv1 Hnv) as [Hl Hs]. split.
      * intros x Hx. by apply B1, Hl.
      * intros r Hr. by apply B2, Hs.
    + by apply B6.
  - intros x Hx Hnx. destruct (decide (x ∈ all_urls st1)) as [Hx1|Hx1].
    + destruct (A7 x Hx1 Hnx) as [Hl|(v & Hv & Hnv & Hxv)].
      * by apply elem_of_nil in Hl.
      * right. exists v. split_and!; [by apply B2|done|done].
    + destruct (B7 x Hx Hx1) as [Hl|(v & Hv & Hnv & Hxv)]; [by left|].
      right. exists v. split_and!; [done| |done].
      intros Hin. by apply Hnv, A2.
Qed.

(** A call on a url that is new: its own locations were explored from the
    state in which it is marked. *)
Lemma explored_call w u st mid st' :
  u ∉ processed_sitemaps st →
  all_urls mid = all_urls st →
  processed_sitemaps mid = {[u]} ∪ processed_sitemaps st →
  explored w (sub_sitemaps (doc_locs w u)) (leaf_urls (doc_locs w u)) mid st' →
  explored w [u] [] st st'.
Proof.
  intros Hu Hmu Hmp [H1 H2 H3 H4 H5 H6 H7]. rewrite Hmu, Hmp in *.
  assert (u ∈ processed_sitemaps st') as Hu'.
  { apply H2. apply elem_of_union_l. by apply elem_of_singleton. }
  split.
  - done.
  - etrans; [|exact H2]. apply union_subseteq_r.
  - by intros s ->%list_elem_of_singleton.
  - intros x Hx. by apply elem_of_nil in Hx.
  - intros v Hv Hnv. exists u. split; [by left|].
    destruct (decide (v = u)) as [->|Hne]; [constructor|].
    destruct (H5 v Hv) as (s & Hs & Hreach).
    { intros [?%elem_of_singleton|?]%elem_of_union; done. }
    eapply reach_trans; [|exact Hreach].
    eapply reach_step; [constructor|done].
  - intros v Hv Hnv. destruct (decide (v = u)) as [->|Hne]; [by split|].
    apply H6; [done|].
    intros [?%elem_of_singleton|?]%elem_of_union; done.
  - intros x Hx Hnx. right.
    destruct (H7 x Hx Hnx) as [Hl|(v & Hv & Hnv & Hxv)].
    + by exists u.
    + exists v. split_and!; [done| |done].
      intros Hin. apply Hnv. by apply elem_of_union_r.
Qed.

Lemma for_loc_elements_explored w call locs :
  (∀ u st r st', call u st = Some (r, st') →
                 r = Returned ∧ explored w [u] [] st st') →
  ∀ st r st',
    for_loc_elements call locs st = Some (r, st') →
    r = Returned ∧ explored w (sub_sitemaps locs) (leaf_urls locs) st st'.
Proof.
  intros Hcall.
  induction locs as [|e rest IH]; intros st r st' Hrun; simpl in Hrun.
  { simplify_eq. split; [done|apply explored_nil]. }
  rewrite sub_sitemaps_cons, leaf_urls_cons. unfold loc_url.
  destruct (text e) as [t|]; [|by eauto].
  case_bool_decide; [by eauto|].
  destruct (endswith (strip t) ".xml") eqn:Hxml.
  - destruct (call (strip t) st) as [[r1 st1]|] eqn:Hc; [|done].
    destruct (Hcall _ _ _ _ Hc) as [-> H1].
    destruct (IH _ _ _ Hrun) as [-> H2].
    split; [done|]. by eapply explored_cons_sub.
  - destruct (IH _ _ _ Hrun) as [-> H2].
    split; [done|]. by apply explored_cons_leaf.
Qed.

Lemma get_sitemap_urls_explored w :
  quiet w →
  ∀ depth url st r st',
    get_sitemap_urls w depth url st = Some (r, st') →
    r = Returned ∧ explored w [url] [] st st'.
Proof.
  intros Hw. induction depth as [|n IH]; intros url st r st' Hrun; [done|].
  simpl in Hrun. case_bool_decide as Hin.
  { simplify_eq. split; [done|].
    eapply explored_same_sets; [..|by apply explored_skip]; done. }
  set (mid := send url (add_processed url (print _ st))) in *.
  assert (∀ line, doc_locs w url = [] →
            explored w [url] [] st (print line mid)) as Hfault.
  { intros line Hnil. apply (explored_call w url st mid); [done..|].
    rewrite Hnil. eapply explored_same_sets; [..|apply explored_nil]; done. }
  unfold doc_locs in Hfault.
  destruct (requests_get w url) as [ex|body] eqn:Hget.
  { destruct (Hw _ _ Hget) as [m ->]. simplify_eq. auto. }
  case_bool_decide as Hempty.
  { simplify_eq. auto. }
  destruct (ET_fromstring w (bstrip body)) as [ex|root] eqn:Hparse.
  { simplify_eq. destruct (handle_print url ex mid) as [line ->]. auto. }
  destruct (for_loc_elements _ _ mid) as [[r1 st1]|] eqn:Hloop; [|done].
  destruct (for_loc_elements_explored w _ _ IH _ _ _ Hloop) as [-> Hex].
  simplify_eq. split; [done|].
  apply (explored_call w url st mid); [done..|].
  unfold doc_locs. rewrite Hget, bool_decide_eq_false_2, Hparse by done. done.
Qed.

(** Explored from empty sets, the sets are what is reached. *)
Lemma explored_from_empty w root st st' :
  all_urls st = ∅ → processed_sitemaps st = ∅ →
  explored w [root] [] st st' →
  (∀ u, u ∈ processed_sitemaps st' ↔ reach w root u)
  ∧ (∀ x, x ∈ all_urls st'
          ↔ ∃ v, reach w root v ∧ x ∈ leaf_urls (doc_locs w v)).
Proof.
  intros Hu Hp [H1 H2 H3 H4 H5 H6 H7]. rewrite Hu, Hp in *.
  assert (∀ v, reach w root v → v ∈ processed_sitemaps st') as Hall.
  { intros v Hv. induction Hv as [|v s _ IH Hs]; [apply H3; by left|].
    by apply (H6 v IH (not_elem_of_empty _)). }
  split.
  - intros u. split; [|by auto]. intros Hin.
    destruct (H5 u Hin (not_elem_of_empty _))
      as (s & ->%list_elem_of_singleton & Hs). done.
  - intros x. split.
    + intros Hx. destruct (H7 x Hx (not_elem_of_empty _))
        as [Hl|(v & Hv & _ & Hxv)]; [by apply elem_of_nil in Hl|].
      exists v. split; [|done].
      destruct (H5 v Hv (not_elem_of_empty _))
        as (s & ->%list_elem_of_singleton & Hs). done.
    + intros (v & Hv & Hxv).
      by apply (H6 v (Hall v Hv) (not_elem_of_empty _)).
Qed.

Lemma site_quiet : quiet Scenario.site.
Proof.
  intros u ex. simpl. unfold Scenario.site_get.
  repeat case_bool_decide; intros; simplify_eq; eauto.
Qed.

(** X1. When every exception that a request raises is a [RequestException]
    and both sets start empty, a call that ends returns, the processed set
    is exactly the set of sitemaps reached from its url, and the urls kept
    are exactly the locations not ending in [.xml] of the documents of the
    sitemaps reached. *)
Theorem crawl_collects_reachable (w : Remote) (depth : nat) (root : string)
    (st : state) (r : outcome) (st' : state) :
  quiet w → all_urls st = ∅ → processed_sitemaps st = ∅ →
  get_sitemap_urls w depth root st = Some (r, st') →
  r = Returned
  ∧ (∀ u, u ∈ processed_sitemaps st' ↔ reach w root u)
  ∧ (∀ x, x ∈ all_urls st'
          ↔ ∃ v, reach w root v ∧ x ∈ leaf_urls (doc_locs w v)).
Proof.
  intros Hw Hu Hp Hrun.
  destruct (get_sitemap_urls_explored w Hw _ _ _ _ _ Hrun) as [-> Hex].
  split; [done|]. by apply (explored_from_empty w root st st').
Qed.

Lemma crawl_collects_reachable_on_site :
  Returned = Returned
  ∧ (∀ u, u ∈ processed_sitemaps Scenario.site_final
          ↔ reach Scenario.site Scenario.site_root u)
  ∧ (∀ x, x ∈ all_urls Scenario.site_final
          ↔ ∃ v, reach Scenario.site Scenario.site_root v
                 ∧ x ∈ leaf_urls (doc_locs Scenario.site v)).
Proof.
  apply (crawl_collects_reachable Scenario.site 6 Scenario.site_root
           Scenario.start Returned Scenario.site_final site_quiet).
  - reflexivity.
  - reflexivity.
  - vm_compute. reflexivity.
Defined.

End Explore.

(** ** Every location is kept or followed *)

Module Leaves.
Import PyStr ET SitemapExtractor PyStrFacts CrawlFacts Exploration Scenario.






End Leaves.

(** ** The names of the batch files *)

Module Names.
Import PyStr SitemapExtractor CrawlerMain.

Lemma list_ascii_of_app s t :
  String.list_ascii_of_string (s +:+ t)
  = String.list_ascii_of_string s ++ String.list_ascii_of_string t.
Proof. induction s as [|c s IH]; [done|]. simpl. by rewrite <- IH. Qed.

Lemma app_inj_r s1 s2 t : s1 +:+ t = s2 +:+ t → s1 = s2.
Proof.
  intros H. apply (f_equal String.list_ascii_of_string) in H.
  rewrite !list_ascii_of_app in H. apply app_inv_tail in H.
  apply (f_equal String.string_of_list_ascii) in H.
  by rewrite !String.string_of_list_ascii_of_string in H.
Qed.

(** The number is read back from its padded form: the zeros in front do
    not count. *)
Lemma format_03d_read n :
  Nat.of_uint <$> NilEmpty.uint_of_string (format_03d n) = Some n.
Proof.
  unfold format_03d.
  pose proof (NilEmpty.usu (Nat.to_uint n)) as Hd.
  pose proof (DecimalNat.Unsigned.of_to n) as Hn.
  destruct (String.length _) as [|[|[|k]]].
  - by rewrite Hd; simpl; rewrite Hn.
  - change ("00" +:+ ?s) with (String "0" (String "0" s)).
    cbn [NilEmpty.uint_of_string]. rewrite Hd. simpl. by rewrite <- Hn at 2.
  - change ("0" +:+ ?s) with (String "0" s).
    cbn [NilEmpty.uint_of_string]. rewrite Hd. simpl. by rewrite <- Hn at 2.
  - by rewrite Hd; simpl; rewrite Hn.
Qed.

Lemma format_03d_inj n m : format_03d n = format_03d m → n = m.
Proof.
  intros H. pose proof (format_03d_read n) as Hn.
  rewrite H, format_03d_read in Hn. by simplify_eq.
Qed.

Lemma batch_filepath_inj b1 b2 :
  batch_filepath b1 = batch_filepath b2 →
  batch_file_number b1 = batch_file_number b2.
Proof.
  unfold batch_filepath, batch_filename, path_join. intros H.
  do 3 apply (inj (String.app _)) in H.
  by apply app_inj_r, format_03d_inj in H.
Qed.

Lemma batches_paths B (l : list string) :
  batch_filepath <$> batches B l
  = (λ i, batch_filepath (batch_at B l i)) <$> seq 0 (num_batches B l).
Proof. unfold batches. by rewrite <- list_fmap_compose. Qed.

Lemma batches_paths_NoDup B (l : list string) :
  NoDup (batch_filepath <$> batches B l).
Proof.
  rewrite batches_paths. apply NoDup_fmap_2_strong; [|apply NoDup_seq].
  intros i j _ _ H%batch_filepath_inj. simpl in H. lia.
Qed.

Lemma batch_filepath_not_readme b : batch_filepath b ≠ readme_filepath.
Proof.
  intros H. apply (f_equal (String.get 30)) in H. vm_compute in H.
  discriminate.
Qed.

Lemma batch_filepath_in_base b :
  startswith (batch_filepath b) (output_base_dir +:+ "/") = true.
Proof. reflexivity. Qed.

(** X2. Whatever the batch size and the set of urls, no two batch files of
    a run have the same path, and none has the path of the index: no file
    written by the run overwrites another. *)
Theorem batch_paths_distinct (B : nat) (extracted_urls : gset string) :
  NoDup (batch_files B extracted_urls).*1
  ∧ Forall (λ path, bool_decide (path = readme_filepath) = false)
      (batch_files B extracted_urls).*1.
Proof.
  unfold batch_files. case_bool_decide as He; [split; constructor|].
  rewrite <- list_fmap_compose.
  change (fst ∘ _) with batch_filepath. rewrite batches_paths. split.
  - apply NoDup_fmap_2_strong; [|apply NoDup_seq].
    intros i j _ _ H%batch_filepath_inj. simpl in H. lia.
  - apply Forall_fmap, Forall_forall. intros i _.
    apply bool_decide_eq_false. intros H.
    apply (f_equal (String.get 30)) in H. vm_compute in H. discriminate.
Qed.

(** *** The order of the names *)

Lemma names_sorted : Sorted String.le (name_of_number <$> seq 0 1000).
Proof.
  apply (bool_decide_unpack (Sorted String.le (name_of_number <$> seq 0 1000))).
  vm_compute. exact I.
Qed.

(** X3. Below a thousand the padded names sort as the batch numbers do
    (the reason that line 85 gives for the padding): of two batches with
    different numbers under 1000, the one with the smaller number has the
    name that comes first, and the names differ. *)
Theorem batch_filenames_in_order (b1 b2 : batch) :
  batch_file_number b1 < batch_file_number b2 →
  batch_file_number b2 < 1000 →
  String.le (batch_filename b1) (batch_filename b2)
  ∧ batch_filename b1 ≠ batch_filename b2.
Proof.
  intros Hlt Hmax. split.
  - pose proof (Sorted_StronglySorted _ _ names_sorted) as Hs.
    replace 1000 with (batch_file_number b2 + (1000 - batch_file_number b2))
      in Hs by lia.
    rewrite seq_app, fmap_app in Hs.
    apply (StronglySorted_app_1_elem_of _ _ _ _ _ Hs).
    + apply list_elem_of_fmap. exists (batch_file_number b1).
      split; [done|]. apply elem_of_seq. lia.
    + apply list_elem_of_fmap. exists (batch_file_number b2).
      split; [done|]. apply elem_of_seq. lia.
  - unfold batch_filename. intros H.
    apply (inj (String.app _)), app_inj_r, format_03d_inj in H. lia.
Qed.

Lemma batch_filenames_in_order_7_12 :
  String.le (batch_filename (batch_at 75 [] 6)) (batch_filename (batch_at 75 [] 11))
  ∧ batch_filename (batch_at 75 [] 6) ≠ batch_filename (batch_at 75 [] 11).
Proof.
  apply (batch_filenames_in_order (batch_at 75 [] 6) (batch_at 75 [] 11));
    simpl; lia.
Defined.

(** From a thousand on the order of the names is no longer that of the
    numbers. *)
Example batch_filenames_past_999 :
  name_of_number 999 = "list-999.md" ∧ name_of_number 1000 = "list-1000.md"
  ∧ String.leb (name_of_number 1000) (name_of_number 999) = true.
Proof. split_and!; reflexivity. Qed.

(** *** The links of the index *)

Lemma all_with_app sp s t :
  all_with sp (s +:+ t) = all_with sp s && all_with sp t.
Proof.
  induction s as [|c s IH]; [done|].
  change (String c s +:+ t) with (String c (s +:+ t)). simpl.
  by rewrite IH, andb_assoc.
Qed.

Lemma contains_backslash s :
  all_with not_backslash s = true → contains s "\" = false.
Proof.
  induction s as [|c s IH]; [done|]. cbn [all_with contains startswith].
  intros [Hc Hs]%andb_prop. rewrite IH by done.
  apply negb_true_iff, bool_decide_eq_false in Hc.
  by rewrite (bool_decide_eq_false_2 ("\"%char = c)).
Qed.

Lemma digits_no_backslash d :
  all_with not_backslash (NilEmpty.string_of_uint d) = true.
Proof. induction d; simpl; done. Qed.

Lemma format_03d_no_backslash n : all_with not_backslash (format_03d n) = true.
Proof.
  unfold format_03d. destruct (String.length _) as [|[|[|k]]];
    rewrite ?all_with_app, ?digits_no_backslash; done.
Qed.

Lemma replace_backslash_app s t :
  replace (s +:+ t) "\" "/" = replace s "\" "/" +:+ replace t "\" "/".
Proof.
  unfold replace. induction s as [|c s IH]; [done|].
  change (String c s +:+ t) with (String c (s +:+ t)).
  cbn [replace_go startswith String.length Nat.sub]. rewrite IH.
  assert (∀ x, startswith x "" = true) as Hs by (by intros []).
  rewrite !Hs, !andb_true_r. by case_bool_decide.
Qed.

Lemma replace_batch_filename b :
  replace (batch_filename b) "\" "/" = batch_filename b.
Proof.
  apply Regenerator.replace_go_no_old, contains_backslash.
  unfold batch_filename. by rewrite !all_with_app, format_03d_no_backslash.
Qed.

(** X4. On POSIX and on Windows alike, the path that the index gives for a
    batch is [lists/] followed by the name of its file: it holds no
    backslash, and it is the path that the batch file was written to, taken
    below the output directory and with its separators turned into
    slashes. *)
Theorem index_link_is_file_path (p : platform) (b : batch) :
  (batch_details_on p b).2 = "lists/" +:+ batch_filename b
  ∧ contains (batch_details_on p b).2 "\" = false
  ∧ replace (batch_filepath_on p b) "\" "/"
    = output_base_dir +:+ "/" +:+ (batch_details_on p b).2.
Proof.
  assert ((batch_details_on p b).2 = "lists/" +:+ batch_filename b) as Heq.
  { unfold batch_details_on, path_join_on. cbn [snd].
    rewrite !replace_backslash_app, replace_batch_filename.
    by destruct p. }
  split; [done|]. rewrite Heq. split.
  - apply contains_backslash. unfold batch_filename.
    by rewrite !all_with_app, format_03d_no_backslash.
  - unfold batch_filepath_on, full_lists_path_on, path_join_on.
    rewrite !replace_backslash_app, replace_batch_filename.
    by destruct p.
Qed.

Example index_link_on_windows :
  batch_filepath_on Windows (batch_at 75 [] 6)
  = "incontri-italia-link-showcase\lists\list-007.md"
  ∧ (batch_details_on Windows (batch_at 75 [] 6)).2 = "lists/list-007.md".
Proof. split; reflexivity. Qed.

End Names.

(** ** The label of a link, for every url *)

Module Labels.
Import PyStr SitemapExtractor.

Lemma length_app s t :
  String.length (s +:+ t) = String.length s + String.length t.
Proof.
  induction s as [|c s IH]; [done|].
  change (String c s +:+ t) with (String c (s +:+ t)). simpl. by rewrite IH.
Qed.

Lemma after_first_none sep s :
  after_first sep s = None ↔ contains s sep = false.
Proof.
  induction s as [|c s IH]; cbn [after_first contains].
  - destruct (startswith "" sep); naive_solver.
  - destruct (startswith (String c s) sep); simpl; naive_solver.
Qed.

Lemma after_first_slashes s r :
  after_first "//" s = Some r → ∃ pre, s = pre +:+ "//" +:+ r.
Proof.
  induction s as [|c s IH]; intros Hr; [done|].
  cbn [after_first] in Hr.
  destruct (startswith (String c s) "//") eqn:Hs.
  - destruct (Batching.startswith_slashes _ Hs) as [s' [= -> ->]].
    simplify_eq. by exists "".
  - destruct (IH Hr) as [pre ->]. by exists (String c pre).
Qed.

Lemma split_go_nonempty sep s skip cur : split_go sep s skip cur ≠ [].
Proof.
  revert skip cur. induction s as [|c s IH]; intros skip cur; [done|].
  cbn [split_go]. destruct skip as [|k]; [|apply IH].
  destruct (startswith (String c s) sep); [done|apply IH].
Qed.

(** The label is the url itself when it holds no [//], and otherwise the
    label of what follows the first [//]. *)
Lemma link_text_unfold url :
  link_text url
  = match after_first "//" url with
    | None => url
    | Some r => link_text r
    end.
Proof.
  unfold link_text, split.
  destruct (after_first "//" url) as [r|] eqn:Hr.
  - destruct (Batching.split_go_first _ _ Hr "") as [piece ->].
    pose proof (split_go_nonempty "//" r 0 "") as Hne.
    unfold last_piece. by destruct (split_go "//" r 0 "").
  - apply after_first_none in Hr. by rewrite Batching.split_go_no_sep.
Qed.

Lemma link_text_suffix_bounded n :
  ∀ url, String.length url ≤ n →
    (∃ pre, url = pre +:+ link_text url)
    ∧ contains (link_text url) "//" = false.
Proof.
  induction n as [|n IH]; intros url Hlen; rewrite link_text_unfold.
  - destruct url; [|simpl in Hlen; lia]. split; [by exists ""|done].
  - destruct (after_first "//" url) as [r|] eqn:Hr.
    + destruct (after_first_slashes _ _ Hr) as [pre ->].
      rewrite !length_app in Hlen. simpl in Hlen.
      destruct (IH r) as [[pre' Hpre] Hno]; [lia|]. split; [|done].
      exists (pre +:+ "//" +:+ pre'). rewrite Hpre at 1.
      clear. induction pre as [|c pre IHp]; [done|].
      change (String c pre +:+ ?x) with (String c (pre +:+ x)).
      by rewrite IHp.
    + split; [by exists ""|]. by apply after_first_none.
Qed.

(** X5. For every url, the label written for it is the end of the url (the
    url is some text followed by the label), the label holds no [//], and
    the label is the whole url when the url holds no [//]. *)
Theorem link_text_is_clean_suffix (url : string) :
  (∃ pre, url = pre +:+ link_text url)
  ∧ contains (link_text url) "//" = false
  ∧ (contains url "//" = false → link_text url = url).
Proof.
  destruct (link_text_suffix_bounded (String.length url) url) as [H1 H2];
    [done|].
  split_and!; [done|done|]. intros Hno.
  rewrite link_text_unfold. by apply after_first_none in Hno as ->.
Qed.

(** A url that ends with [//] gets the empty label. *)
Example link_text_empty : link_text "https://" = "".
Proof. reflexivity. Qed.

(** X6. Line 73 gives the same sequence whatever the order in which the
    set hands out its urls: sorting any listing of the set without repeats
    gives [sorted_urls]. *)
Theorem sorted_urls_any_listing (extracted_urls : gset string)
    (listing : list string) :
  NoDup listing → list_to_set listing = extracted_urls →
  merge_sort String.le listing = sorted_urls extracted_urls.
Proof.
  intros Hnd Hset. unfold sorted_urls.
  apply (Sorted_unique String.le).
  - apply (Sorted_merge_sort String.le).
  - apply (Sorted_merge_sort String.le).
  - rewrite !merge_sort_Permutation.
    apply NoDup_Permutation; [done|apply NoDup_elements|].
    intros x. rewrite elem_of_elements, <- Hset.
    by rewrite elem_of_list_to_set.
Qed.

Lemma sorted_urls_any_listing_of_three :
  merge_sort String.le
    ["https://s.it/p3"; "https://s.it/p1"; "https://s.it/p2"]
  = sorted_urls Scenario.three_urls.
Proof.
  apply (sorted_urls_any_listing Scenario.three_urls
           ["https://s.it/p3"; "https://s.it/p1"; "https://s.it/p2"]).
  - apply (bool_decide_unpack
             (NoDup ["https://s.it/p3"; "https://s.it/p1"; "https://s.it/p2"])).
    vm_compute. exact I.
  - vm_compute. reflexivity.
Defined.

End Labels.

(** ** The files that the crawler writes *)

Module MainFacts.
Import PyStr SitemapExtractor CrawlerMain Names Showcase.

Lemma files_say_done host a b c wd : files (say_done host a b c wd) = files wd.
Proof. done. Qed.

Lemma crawl_sets_say_done host a b c wd :
  all_urls (crawl (say_done host a b c wd)) = all_urls (crawl wd).
Proof. done. Qed.

(** What the loop over the batches does to the files. *)
Lemma write_batches_spec host bs :
  ∀ details wd r details' wd',
    write_batches host bs details wd = (r, details', wd') →
    all_urls (crawl wd') = all_urls (crawl wd)
    ∧ (∀ path, path ∉ batch_filepath <$> bs →
               files wd' !! path = files wd !! path)
    ∧ match r with
      | Returned =>
          details' = details ++ (batch_details <$> bs)
          ∧ (NoDup (batch_filepath <$> bs) →
             ∀ b, b ∈ bs →
                  files wd' !! batch_filepath b = Some (batch_file_text b))
      | Raised e => ∃ b, b ∈ bs ∧ file_fault_of host (batch_filepath b) ≠ Writes
      end.
Proof.
  induction bs as [|b rest IH]; intros details wd r details' wd' Hrun;
    cbn [write_batches] in Hrun.
  { simplify_eq. split; [done|]. split; [done|].
    split; [by rewrite app_nil_r|].
    intros _ b Hb. by apply elem_of_nil in Hb. }
  unfold write_file in Hrun.
  destruct (file_fault_of host (batch_filepath b)) as [|e|k e] eqn:Hfault.
  2:{ simplify_eq. split; [done|]. split; [done|].
      exists b. split; [by left|by rewrite Hfault]. }
  2:{ simplify_eq. split; [done|]. split.
      - intros path Hpath. rewrite fmap_cons, not_elem_of_cons in Hpath.
        destruct Hpath as [Hne _]. simpl. by rewrite lookup_insert_ne.
      - exists b. split; [by left|by rewrite Hfault]. }
  apply IH in Hrun as (Hu & Hother & Hr). split; [|split].
  - by rewrite Hu.
  - intros path Hpath. rewrite fmap_cons, not_elem_of_cons in Hpath.
    destruct Hpath as [Hne Hpath]. rewrite (Hother path Hpath). simpl.
    by rewrite lookup_insert_ne.
  - destruct r as [|e].
    + destruct Hr as [-> Hfiles]. split.
      { by rewrite <- (assoc_L (++)). }
      rewrite fmap_cons. intros [Hnb Hnd]%NoDup_cons b' Hb'.
      destruct (decide (batch_filepath b' = batch_filepath b)) as [Heq|Hne].
      * rewrite Heq, (Hother _ Hnb). simpl. rewrite lookup_insert_eq.
        apply elem_of_cons in Hb' as [->|Hb']; [done|].
        destruct Hnb. rewrite <- Heq. by apply list_elem_of_fmap_2.
      * apply elem_of_cons in Hb' as [->|Hb']; [done|]. by apply Hfiles.
    + destruct Hr as (b' & Hb' & He). exists b'. split; [by right|done].
Qed.

Lemma batches_nonempty (X : gset string) :
  X ≠ ∅ → batches batch_size (sorted_urls X) ≠ [].
Proof.
  intros HX Hnil. apply (f_equal length) in Hnil.
  rewrite Batching.batches_length in Hnil. cbn [length] in Hnil.
  pose proof (Batching.num_batches_ceil batch_size (sorted_urls X)) as Hc.
  rewrite Batching.length_sorted_urls, Hnil in Hc.
  assert (size X ≠ 0) as Hs.
  { intros H0%size_empty_inv. by apply leibniz_equiv in H0. }
  unfold batch_size in Hc. lia.
Qed.

(** What lines 68 to 144 do to the files, however they end. *)
Lemma publish_files host st fs :
  all_urls (crawl (publish host st fs).2) = all_urls st
  ∧ (∀ path,
       path ≠ readme_filepath →
       path ∉ batch_filepath <$> batches batch_size (sorted_urls (all_urls st)) →
       files (publish host st fs).2 !! path = fs !! path)
  ∧ (all_urls st = ∅ → files (publish host st fs).2 = fs)
  ∧ (files (publish host st fs).2 !! readme_filepath ≠ fs !! readme_filepath →
     ∀ b, b ∈ batches batch_size (sorted_urls (all_urls st)) →
          files (publish host st fs).2 !! batch_filepath b
          = Some (batch_file_text b)).
Proof.
  unfold publish. case_bool_decide as Hempty.
  { split_and!; try done. }
  destruct (write_batches _ _ _ _) as [[r details] wd] eqn:Hwb.
  apply write_batches_spec in Hwb as (Hu & Hother & Hr).
  assert (files wd !! readme_filepath = fs !! readme_filepath) as Hreadme.
  { rewrite Hother; [done|]. intros (b & Hb & _)%list_elem_of_fmap.
    by destruct (batch_filepath_not_readme b). }
  destruct r as [|e].
  - destruct Hr as [_ Hfiles].
    specialize (Hfiles (batches_paths_NoDup _ _)).
    unfold write_file.
    destruct (file_fault_of host readme_filepath) as [|e|k e] eqn:Hfault.
    + split_and!; [done| |done|].
      * intros path Hne Hpath. cbn [snd]. rewrite files_say_done.
        cbn [files set_file say]. rewrite lookup_insert_ne by done.
        by rewrite Hother.
      * intros _ b Hb. cbn [snd]. rewrite files_say_done.
        cbn [files set_file say].
        rewrite lookup_insert_ne
          by (by intros ?%symmetry%batch_filepath_not_readme).
        by apply Hfiles.
    + split_and!; [done|by intros; rewrite Hother|done|].
      intros _ b Hb. by apply Hfiles.
    + split_and!; [done| |done|].
      * intros path Hne Hpath. cbn [snd files set_file].
        rewrite lookup_insert_ne by done. by rewrite Hother.
      * intros _ b Hb. cbn [snd files set_file].
        rewrite lookup_insert_ne
          by (by intros ?%symmetry%batch_filepath_not_readme).
        by apply Hfiles.
  - split_and!; [done|by intros; rewrite Hother|done|done].
Qed.

(** When no write goes wrong, the batch files are all written. *)
Lemma publish_batch_files host st fs :
  (∀ path, file_fault_of host path = Writes) → all_urls st ≠ ∅ →
  (publish host st fs).1 = Returned
  ∧ (∀ b, b ∈ batches batch_size (sorted_urls (all_urls st)) →
          files (publish host st fs).2 !! batch_filepath b
          = Some (batch_file_text b)).
Proof.
  intros Hopen Hne. unfold publish. rewrite (bool_decide_eq_false_2 _ Hne).
  destruct (write_batches _ _ _ _) as [[r details] wd] eqn:Hwb.
  apply write_batches_spec in Hwb as (_ & _ & Hr).
  destruct r as [|e].
  - destruct Hr as [-> Hfiles]. unfold write_file. rewrite Hopen.
    cbn [fst snd]. split; [done|].
    intros b Hb. rewrite files_say_done. cbn [files set_file say].
    rewrite lookup_insert_ne by (by intros ?%symmetry%batch_filepath_not_readme).
    apply Hfiles; [apply batches_paths_NoDup|done].
  - destruct Hr as (b' & _ & Hb'). by destruct Hb'.
Qed.

(** X7. When no write goes wrong and at least one url was extracted,
    lines 68 to 144 return; there is at least one batch; afterwards every
    batch file holds the text of its batch, the index holds the text of
    line 109 to 132 with one link for each batch in order, and every other
    path holds what it held before. *)
Theorem publish_writes_every_file (host : Host) (st : state)
    (fs : gmap string string) :
  (∀ path, file_fault_of host path = Writes) → all_urls st ≠ ∅ →
  (publish host st fs).1 = Returned
  ∧ batches batch_size (sorted_urls (all_urls st)) ≠ []
  ∧ (∀ b, b ∈ batches batch_size (sorted_urls (all_urls st)) →
          files (publish host st fs).2 !! batch_filepath b
          = Some (batch_file_text b))
  ∧ files (publish host st fs).2 !! readme_filepath
    = Some (readme_text (now host)
              (batch_details
                 <$> batches batch_size (sorted_urls (all_urls st))))
  ∧ (∀ path,
       path ≠ readme_filepath →
       path ∉ batch_filepath <$> batches batch_size (sorted_urls (all_urls st)) →
       files (publish host st fs).2 !! path = fs !! path).
Proof.
  intros Hopen Hne.
  pose proof (publish_files host st fs) as (_ & Hother & _ & _).
  destruct (publish_batch_files host st fs Hopen Hne) as [Hret Hfiles].
  split; [done|]. split; [by apply batches_nonempty|].
  split; [done|]. split; [|done].
  unfold publish. rewrite (bool_decide_eq_false_2 _ Hne).
  destruct (write_batches _ _ _ _) as [[r details] wd] eqn:Hwb.
  apply write_batches_spec in Hwb as (_ & _ & Hr).
  destruct r as [|e].
  - destruct Hr as [-> _]. unfold write_file. rewrite Hopen. cbn [snd].
    rewrite files_say_done. cbn [files set_file say].
    by rewrite lookup_insert_eq.
  - destruct Hr as (b' & _ & Hb'). by destruct Hb'.
Qed.

Lemma site_final_nonempty : all_urls Scenario.site_final ≠ ∅.
Proof.
  intros H. pose proof Resolver.site_final_p2 as Hp. rewrite H in Hp.
  by apply not_elem_of_empty in Hp.
Qed.

Lemma publish_writes_every_file_on_site :
  (publish good_host Scenario.site_final ∅).1 = Returned
  ∧ batches batch_size (sorted_urls (all_urls Scenario.site_final)) ≠ []
  ∧ (∀ b, b ∈ batches batch_size (sorted_urls (all_urls Scenario.site_final)) →
          files (publish good_host Scenario.site_final ∅).2 !! batch_filepath b
          = Some (batch_file_text b))
  ∧ files (publish good_host Scenario.site_final ∅).2 !! readme_filepath
    = Some (readme_text (now good_host)
              (batch_details
                 <$> batches batch_size
                       (sorted_urls (all_urls Scenario.site_final))))
  ∧ (∀ path,
       path ≠ readme_filepath →
       path ∉ batch_filepath
              <$> batches batch_size
                    (sorted_urls (all_urls Scenario.site_final)) →
       files (publish good_host Scenario.site_final ∅).2 !! path
       = (∅ : gmap string string) !! path).
Proof.
  apply (publish_writes_every_file good_host Scenario.site_final ∅).
  - reflexivity.
  - exact site_final_nonempty.
Defined.

(** What the whole block does to a path that it does not write. *)
Lemma main_files host w depth fs r wd :
  main host w depth fs = Some (r, wd) →
  (∀ path,
     startswith path (output_base_dir +:+ "/") = false →
     files wd !! path = fs !! path)
  ∧ (all_urls (crawl wd) = ∅ → files wd = fs)
  ∧ (files wd !! readme_filepath ≠ fs !! readme_filepath →
     ∀ b, b ∈ batches batch_size (sorted_urls (all_urls (crawl wd))) →
          files wd !! batch_filepath b = Some (batch_file_text b)).
Proof.
  unfold main. intros Hrun.
  destruct (makedirs_error host); [by simplify_eq|].
  destruct (get_sitemap_urls _ _ _ _) as [[[|e] st]|]; [|by simplify_eq|done].
  simplify_eq.
  pose proof (publish_files host st fs) as (Hu & Hother & Hempty & Hlast).
  rewrite Hrun in *. cbn [fst snd] in *. split_and!.
  - intros path Hpath. apply Hother.
    + intros ->. done.
    + intros (b & -> & _)%list_elem_of_fmap.
      by rewrite batch_filepath_in_base in Hpath.
  - intros H0. apply Hempty. by rewrite <- Hu.
  - rewrite Hu. exact Hlast.
Qed.

(** X8. The index is written last: however the block ends, and whatever
    goes wrong while a file is written, if the path of the index does not
    hold after the run what it held before, then every batch file holds the
    whole text of its batch. *)
Theorem index_written_last (host : Host) (w : Remote) (depth : nat)
    (fs : gmap string string) (r : outcome) (wd : world) :
  main host w depth fs = Some (r, wd) →
  files wd !! readme_filepath ≠ fs !! readme_filepath →
  Forall (λ b, files wd !! batch_filepath b = Some (batch_file_text b))
    (batches batch_size (sorted_urls (all_urls (crawl wd)))).
Proof.
  intros Hrun Hne. apply Forall_forall. intros b Hb.
  by eapply main_files.
Qed.

Lemma index_written_last_pages :
  Forall (λ b, files pages_world !! batch_filepath b
               = Some (batch_file_text b))
    (batches batch_size (sorted_urls (all_urls (crawl pages_world)))).
Proof.
  apply (index_written_last good_host pages_site 2 old_files
           Returned pages_world).
  - vm_compute. reflexivity.
  - intros H. vm_compute in H. discriminate H.
Defined.

(** X9. When the run ends with no url extracted, no file was written: the
    files are those from before the run. *)
Theorem nothing_extracted_nothing_written (host : Host) (w : Remote)
    (depth : nat) (fs : gmap string string) (r : outcome) (wd : world) :
  main host w depth fs = Some (r, wd) →
  all_urls (crawl wd) = ∅ →
  files wd = fs.
Proof. intros Hrun. by eapply main_files. Qed.

Lemma nothing_extracted_nothing_written_dead :
  files dead_world = old_files.
Proof.
  apply (nothing_extracted_nothing_written good_host dead_site 2 old_files
           Returned dead_world).
  - vm_compute. reflexivity.
  - vm_compute. reflexivity.
Defined.

(** X10. The block writes under the output directory only: a path that does
    not start with the name of the output directory and a slash holds after
    the run what it held before, however the run ends. *)
Theorem only_the_output_directory (host : Host) (w : Remote) (depth : nat)
    (fs : gmap string string) (r : outcome) (wd : world) (path : string) :
  main host w depth fs = Some (r, wd) →
  startswith path (output_base_dir +:+ "/") = false →
  files wd !! path = fs !! path.
Proof. intros Hrun. by eapply main_files. Qed.

Lemma only_the_output_directory_pages :
  files pages_world !! "sitemap.xml" = old_files !! "sitemap.xml".
Proof.
  apply (only_the_output_directory good_host pages_site 2 old_files
           Returned pages_world "sitemap.xml").
  - vm_compute. reflexivity.
  - reflexivity.
Defined.

Example pages_world_files :
  (map_to_list (files pages_world)).*1
  ≡ₚ ["incontri-italia-link-showcase/README.md";
      "incontri-italia-link-showcase/lists/list-001.md"]
  ∧ files locked_world !! "incontri-italia-link-showcase/lists/list-001.md"
    = files pages_world !! "incontri-italia-link-showcase/lists/list-001.md"
  ∧ files locked_world !! readme_filepath = Some "old index"
  ∧ files full_world !! "incontri-italia-link-showcase/lists/list-001.md"
    = Some "# Incontri Italia - "
  ∧ files full_world !! readme_filepath = Some "old index".
Proof.
  split_and!.
  - vm_compute. by rewrite Permutation_swap.
  - vm_compute. reflexivity.
  - vm_compute. reflexivity.
  - vm_compute. reflexivity.
  - vm_compute. reflexivity.
Qed.

End MainFacts.

(** ** An exception that no handler of the callee catches *)

Module Unexpected.
Import PyStr ET SitemapExtractor CrawlerMain Showcase.

(** The loop over a list of locations, when it runs to the end of a first
    part, goes on with the rest from the state reached. *)
Lemma for_loc_elements_app call pre rest :
  ∀ st st1,
    for_loc_elements call pre st = Some (Returned, st1) →
    for_loc_elements call (pre ++ rest) st = for_loc_elements call rest st1.
Proof.
  induction pre as [|e pre IH]; intros st st1 Hpre; simpl in *.
  { by simplify_eq. }
  destruct (text e) as [t|]; [|by apply IH].
  case_bool_decide; [by apply IH|].
  destruct (endswith (strip t) ".xml"); [|by apply IH].
  destruct (call (strip t) st) as [[[|ex] st2]|]; [|done..].
  by apply IH.
Qed.

(** X11. When the request for a sitemap named in a document, at whatever
    place among its locations, raises an exception that is no
    [RequestException], the call on that sitemap raises, the handler of the
    calling document prints it, and the call on the document returns at
    once. The locations that follow in the document are not looked at: the
    leaves are those that the locations before the sitemap have left, and
    the processed set is larger by the sitemap only. *)
Theorem unexpected_exception_ends_the_loop (w : Remote) (n : nat)
    (url child body : string) (st st1 : state) (root e : Element)
    (pre rest : list Element) (ex : exn) :
  url ∉ processed_sitemaps st →
  requests_get w url = inr body → bstrip body ≠ "" →
  ET_fromstring w (bstrip body) = inr root →
  loc_elements root = pre ++ e :: rest →
  for_loc_elements (get_sitemap_urls w (S n)) pre
    (send url
       (add_processed url (print ("Processing sitemap: " +:+ url) st)))
  = Some (Returned, st1) →
  loc_url e = Some child → endswith child ".xml" = true →
  child ∉ processed_sitemaps st1 →
  requests_get w child = inl ex → (∀ m, ex ≠ RequestException m) →
  get_sitemap_urls w (S (S n)) url st
  = Some (Returned,
          handle url ex
            (send child
               (add_processed child
                  (print ("Processing sitemap: " +:+ child) st1))))
  ∧ all_urls
      (handle url ex
         (send child
            (add_processed child
               (print ("Processing sitemap: " +:+ child) st1))))
    = all_urls st1
  ∧ processed_sitemaps
      (handle url ex
         (send child
            (add_processed child
               (print ("Processing sitemap: " +:+ child) st1))))
    = {[child]} ∪ processed_sitemaps st1.
Proof.
  intros Hurl Hget Hne Hparse Hlocs Hpre He Hxml Hchild Hgetc Hex.
  split; [|by destruct ex].
  remember (S n) as k eqn:Hk.
  cbn [get_sitemap_urls]. rewrite bool_decide_eq_false_2 by done.
  rewrite Hget, bool_decide_eq_false_2, Hparse, Hlocs by done.
  rewrite (for_loc_elements_app _ pre (e :: rest) _ st1 Hpre).
  subst k. cbn [for_loc_elements get_sitemap_urls]. unfold loc_url in He.
  destruct (text e) as [t|]; [|done]. case_bool_decide; [done|].
  simplify_eq. rewrite Hxml.
  rewrite bool_decide_eq_false_2 by done.
  rewrite Hgetc. destruct ex; [by destruct (Hex msg)|done..].
Qed.

Lemma unexpected_exception_ends_the_loop_flaky :
  get_sitemap_urls flaky_site 2 initial_sitemap_url empty_state
  = Some (Returned, flaky_final)
  ∧ all_urls flaky_final = all_urls flaky_before
  ∧ processed_sitemaps flaky_final
    = {["https://www.incontri-italia.it/broken.xml"]}
      ∪ processed_sitemaps flaky_before.
Proof.
  apply (unexpected_exception_ends_the_loop flaky_site 0 initial_sitemap_url
           "https://www.incontri-italia.it/broken.xml" "<urlset/>" empty_state
           flaky_before flaky_doc
           (Elem (qname sitemap_ns "loc")
              (Some "https://www.incontri-italia.it/broken.xml") [])
           [Elem (qname sitemap_ns "loc")
              (Some "https://www.incontri-italia.it/early-page") []]
           [Elem (qname sitemap_ns "loc")
              (Some "https://www.incontri-italia.it/late-page") []]
           (OtherException "unexpected keyword argument")).
  - apply not_elem_of_empty.
  - reflexivity.
  - vm_compute. discriminate.
  - reflexivity.
  - reflexivity.
  - reflexivity.
  - reflexivity.
  - reflexivity.
  - apply (bool_decide_unpack
             ("https://www.incontri-italia.it/broken.xml"
              ∉ processed_sitemaps flaky_before)).
    vm_compute. exact I.
  - reflexivity.
  - discriminate.
Defined.

(** The page before the sitemap is kept, the page after it is not. *)
Example flaky_leaves :
  elements (all_urls flaky_final)
  = ["https://www.incontri-italia.it/early-page"].
Proof. vm_compute. reflexivity. Qed.

End Unexpected.

(** ** The regenerator, for every directory *)

Module RegenFacts.
Import PyStr UpdateSitemap Directory.

Lemma for_filenames_map env filenames :
  ∀ sitemap_entries,
    for_filenames env filenames sitemap_entries
    = sitemap_entries ++
      ((λ f, url_entry (loc_path f) (lastmod_date env f) "monthly" "0.8")
       <$> filter (λ f, endswith f ".md" = true) filenames).
Proof.
  induction filenames as [|f rest IH]; intros acc; simpl.
  { by rewrite app_nil_r. }
  rewrite filter_cons. destruct (endswith f ".md") eqn:Hmd.
  - rewrite decide_True by done. by rewrite IH, <- (assoc_L (++)).
  - rewrite decide_False by done. apply IH.
Qed.

Lemma append_empty_r (s : string) : s +:+ "" = s.
Proof.
  induction s as [|c s IH]; [done|].
  change (String c s +:+ "") with (String c (s +:+ "")). by rewrite IH.
Qed.

(** X12. For every state of the lists directory and whatever its file
    names. When [os.listdir] raises, the exception leaves
    [generate_sitemap_entries] and nothing is printed. When the directory
    is missing, the list returned is the root entry alone and the warning
    is printed. When the names are listed, the list returned is the root
    entry followed, in the order of the listing, by one entry for each name
    that ends in [.md], with the location that line 31 computes; the other
    names add nothing, and nothing is printed. *)
Theorem generate_sitemap_entries_all (env : Env) :
  match listing env with
  | ListdirRaises e => generate_sitemap_entries env = (inl e, "")
  | NotFound =>
      generate_sitemap_entries env
      = (inr [url_entry (base_url +:+ "/") (today env) "weekly" "1.0"],
         "Warning: Directory '" +:+ lists_dir +:+ "' not found." +:+ nl)
  | Names filenames =>
      generate_sitemap_entries env
      = (inr (url_entry (base_url +:+ "/") (today env) "weekly" "1.0"
              :: ((λ f, url_entry (loc_path f) (lastmod_date env f)
                          "monthly" "0.8")
                  <$> filter (λ f, endswith f ".md" = true) filenames)),
         "")
  end.
Proof.
  unfold generate_sitemap_entries.
  destruct (listing env) as [|names|e]; [done| |done].
  by rewrite for_filenames_map.
Qed.

(** X13. The block of lines 66 to 71 never prints that no entries were
    generated. When [os.listdir] raises, the exception ends the block
    before [write_sitemap] is called: no file is touched and nothing is
    printed. In every other case the list generated is not empty and the
    block ends as the call of [write_sitemap] on it does. *)
Theorem main_writes_unless_listdir_raises (env : Env) (linesep : string)
    (fl : Faults) (st : state) :
  match generate_sitemap_entries env with
  | (inl e, printed) =>
      listing env = ListdirRaises e
      ∧ RegeneratorMain.main env linesep fl st = (Raised e, st)
  | (inr entries, printed) =>
      entries ≠ []
      ∧ RegeneratorMain.main env linesep fl st
        = write_sitemap linesep fl entries
            {| files := files st; stdout := stdout st +:+ printed |}
  end.
Proof.
  unfold RegeneratorMain.main, generate_sitemap_entries.
  destruct (listing env) as [|names|e].
  - done.
  - rewrite for_filenames_map. done.
  - split; [done|]. destruct st as [fs out]. cbn [files stdout].
    by rewrite append_empty_r.
Qed.

Example main_unreadable :
  RegeneratorMain.main unreadable nl disk_full with_readme
  = (Raised (IOError "[Errno 13] Permission denied: 'lists'"), with_readme).
Proof. reflexivity. Qed.

(** X14. [write_sitemap] touches no file but [sitemap.xml]: every other
    name holds after the call what it held before, whatever fails and
    however the call ends. *)
Theorem write_sitemap_only_sitemap (linesep : string) (fl : Faults)
    (entries : list string) (st : state) (name : string) :
  name ≠ "sitemap.xml" →
  files (write_sitemap linesep fl entries st).2 !! name = files st !! name.
Proof.
  intros Hne. unfold write_sitemap, verify, handle.
  destruct (on_write fl) as [|[m|m]|written [m|m]]; simpl;
    rewrite ?lookup_insert_eq; try done;
    try (by rewrite lookup_insert_ne).
  destruct (on_read fl) as [[m|m]|]; simpl;
    rewrite ?Regenerator.files_print_lines; simpl;
    by rewrite lookup_insert_ne.
Qed.

Lemma write_sitemap_only_sitemap_readme :
  files (write_sitemap nl disk_full ["<url/>"] with_readme).2 !! "README.md"
  = files with_readme !! "README.md".
Proof.
  apply (write_sitemap_only_sitemap nl disk_full ["<url/>"] with_readme
           "README.md").
  discriminate.
Defined.

End RegenFacts.

(** ** From the site to the batch files *)

Module EndToEnd.
Import PyStr ET SitemapExtractor Exploration CrawlerMain Showcase.

Lemma elem_of_batches (l : list string) x :
  x ∈ l ↔ ∃ b, b ∈ batches batch_size l ∧ x ∈ current_batch_urls b.
Proof.
  rewrite <- (Batching.batches_concat batch_size l) at 1
    by (unfold batch_size; lia).
  rewrite list_elem_of_In, in_concat. split.
  - intros (us & Hus & Hx). apply list_elem_of_In in Hus, Hx.
    apply list_elem_of_fmap in Hus as (b & -> & Hb). eauto.
  - intros (b & Hb & Hx). exists (current_batch_urls b).
    split; apply list_elem_of_In; [by apply list_elem_of_fmap_2|done].
Qed.

Lemma elem_of_sorted_urls (X : gset string) x : x ∈ sorted_urls X ↔ x ∈ X.
Proof.
  unfold sorted_urls. by rewrite merge_sort_Permutation, elem_of_elements.
Qed.

(** X15. On a site whose requests raise nothing but [RequestException],
    with a directory that can be made and files that can be opened, a run
    that ends returns, and the urls listed in the batch files it has
    written are exactly the locations not ending in [.xml] of the documents
    reached from the first sitemap: each of them is in a batch whose file
    holds the text of that batch, and no batch holds any other url. *)
Theorem main_publishes_what_is_reached (host : Host) (w : Remote)
    (depth : nat) (fs : gmap string string) (r : outcome) (wd : world) :
  quiet w → makedirs_error host = None →
  (∀ path, file_fault_of host path = Writes) →
  main host w depth fs = Some (r, wd) →
  r = Returned
  ∧ ∀ x,
      (∃ v, reach w initial_sitemap_url v ∧ x ∈ leaf_urls (doc_locs w v))
      ↔ (∃ b, b ∈ batches batch_size (sorted_urls (all_urls (crawl wd)))
              ∧ x ∈ current_batch_urls b
              ∧ files wd !! batch_filepath b = Some (batch_file_text b)).
Proof.
  intros Hw Hmk Hopen Hrun. unfold main in Hrun. rewrite Hmk in Hrun.
  destruct (get_sitemap_urls _ _ _ _) as [[r1 st]|] eqn:Hcrawl; [|done].
  destruct (Explore.get_sitemap_urls_explored w Hw _ _ _ _ _ Hcrawl)
    as [-> Hex].
  apply Explore.explored_from_empty in Hex as [_ Hleaves]; [|done..].
  assert (publish host st fs = (r, wd)) as Hp by congruence. clear Hrun.
  pose proof (MainFacts.publish_files host st fs) as (Hu & _ & _ & _).
  rewrite Hp in Hu. cbn [snd] in Hu. rewrite Hu.
  destruct (decide (all_urls st = ∅)) as [Hempty|Hne].
  - split.
    { unfold publish in Hp. rewrite bool_decide_eq_true_2 in Hp by done.
      congruence. }
    intros x. rewrite <- Hleaves, Hempty. split.
    + by intros ?%not_elem_of_empty.
    + intros (b & Hb & _). by apply elem_of_nil in Hb.
  - destruct (MainFacts.publish_batch_files host st fs Hopen Hne)
      as (Hret & Hfiles).
    rewrite Hp in Hret, Hfiles. cbn [fst snd] in Hret, Hfiles.
    split; [done|]. intros x.
    rewrite <- Hleaves, <- elem_of_sorted_urls, elem_of_batches. split.
    + intros (b & Hb & Hx). exists b. split_and!; [done..|by apply Hfiles].
    + intros (b & Hb & Hx & _). eauto.
Qed.

Lemma pages_quiet : quiet pages_site.
Proof.
  intros u ex. simpl. case_bool_decide; intros; simplify_eq; eauto.
Qed.

Lemma main_publishes_what_is_reached_pages :
  Returned = Returned
  ∧ ∀ x,
      (∃ v, reach pages_site initial_sitemap_url v
            ∧ x ∈ leaf_urls (doc_locs pages_site v))
      ↔ (∃ b, b ∈ batches batch_size (sorted_urls (all_urls (crawl pages_world)))
              ∧ x ∈ current_batch_urls b
              ∧ files pages_world !! batch_filepath b
                = Some (batch_file_text b)).
Proof.
  apply (main_publishes_what_is_reached good_host pages_site 2 old_files
           Returned pages_world pages_quiet).
  - reflexivity.
  - reflexivity.
  - vm_compute. reflexivity.
Defined.

End EndToEnd.

(** ** The root of a document *)

Module Roots.
Import ET SitemapExtractor Tree.

Lemma Element_rect_children (P : Element → Prop) :
  (∀ t x ch, Forall P ch → P (Elem t x ch)) → ∀ e, P e.
Proof.
  intros H. fix IH 1. intros [t x ch]. apply H.
  induction ch as [|c ch IHch]; constructor; [apply IH|exact IHch].
Qed.

Lemma iter_esize e : ∀ x, x ∈ iter e → esize x ≤ esize e.
Proof.
  induction e as [t tx ch IH] using Element_rect_children.
  intros x. cbn [iter children]. intros [->|Hx]%elem_of_cons; [done|].
  cbn [esize children]. clear t tx.
  induction IH as [|c ch Hc _ IHch]; [by apply elem_of_nil in Hx|].
  simpl in Hx. apply elem_of_app in Hx as [Hx|Hx].
  - specialize (Hc x Hx). simpl. lia.
  - specialize (IHch Hx). simpl. lia.
Qed.

Lemma descendants_esize e x : x ∈ descendants e → esize x < esize e.
Proof.
  destruct e as [t tx ch]. unfold descendants. cbn [children esize].
  induction ch as [|c ch IH]; simpl; [by intros ?%elem_of_nil|].
  intros [Hx%iter_esize|Hx%IH]%elem_of_app; lia.
Qed.

(** X16. The root of a document is never one of its location elements,
    whatever its tag: both searches look beneath the root only, so every
    location element differs from the root and lies beneath it, and a root
    without children gives no location at all. *)
Theorem root_is_no_location (root : Element) :
  Forall (λ x, x ≠ root ∧ x ∈ descendants root) (loc_elements root)
  ∧ (children root = [] → loc_elements root = []).
Proof.
  assert (∀ x, x ∈ loc_elements root → x ∈ descendants root) as Hd.
  { intros x. unfold loc_elements, findall_descendants.
    case_bool_decide; by intros [_ ?]%list_elem_of_filter. }
  split.
  - apply Forall_forall. intros x Hx%Hd. split; [|done].
    intros ->. apply descendants_esize in Hx. lia.
  - intros Hch. destruct (loc_elements root) as [|x l]; [done|].
    specialize (Hd x (list_elem_of_here _ _)).
    unfold descendants in Hd. rewrite Hch in Hd.
    by apply elem_of_nil in Hd.
Qed.

End Roots.
